(** * tntorch: the optimisation driver [optimize] and the counter [dof]

    A shallow embedding of [tntorch/optimize.py].

    - Tensor objects (cores and factor matrices) live in a heap and are
      named by reference, because the Python code collects and compares
      them as objects: two networks may share one core.
    - A loss is a scalar tensor: its value is a binary floating-point
      number of the format of the tensors ([torch.float32] unless the
      caller chose another), which may be an infinity or NaN.  Sums,
      differences and quotients round to that format, comparisons follow
      IEEE 754 (every comparison with NaN is false, a division by zero
      gives an infinity or NaN and does not raise), and a Python float
      compared with a tensor is first rounded to the format.
    - The tensor library, the automatic differentiation pass and the Adam
      optimizer are collaborators of the driver: they are parameters of the
      section [Driver], acting on an abstract [Store].
    - Wall-clock time ([time.time()]) is not represented; a printed line is
      kept as the record of the values it formats. *)

From Stdlib Require Import List ZArith Bool Arith Lia SpecFloat.
Import ListNotations.

Set Implicit Arguments.

(** ** Exceptions and fallible computations *)

Inductive exn : Type :=
| ValueError          (* "There are no parameters to optimize. ..." *)
| TypeError           (* reduce() of empty sequence with no initial value *)
| IndexError          (* list index out of range *)
| ZeroDivisionError.  (* integer modulo by zero *)

Inductive res (A : Type) : Type :=
| Ok (a : A)
| Raise (e : exn).

Arguments Ok {A} a.
Arguments Raise {A} e.

Definition bind {A B : Type} (m : res A) (k : A -> res B) : res B :=
  match m with
  | Ok a => k a
  | Raise e => Raise e
  end.

Notation "x <- m ;; k" := (bind m (fun x => k))
  (at level 61, m at next level, right associativity).

(** [l[n]] for a non-negative index. *)
Definition index {A : Type} (l : list A) (n : nat) : res A :=
  match nth_error l n with
  | Some x => Ok x
  | None => Raise IndexError
  end.

(** [l[-k]] for [k >= 1]: the [k]-th element from the end. *)
Definition neg_index {A : Type} (l : list A) (k : nat) : res A :=
  if (k <=? length l)%nat then index l (length l - k) else Raise IndexError.

(** ** Tensor objects and tensor networks *)

(** The identity of a tensor object. *)
Definition ref : Type := nat.

(** What the code reads of a torch tensor: [requires_grad] and
    [numel()]. *)
Record tensor_obj : Type := {
  requires_grad : bool;   (* the learnability flag *)
  numel : nat             (* the element count *)
}.

Definition heap : Type := ref -> tensor_obj.

(** Modelled from the spec: the class of tensor networks ([tn.Tensor]) is
    not among the sources.  The spec describes a network as an ordered
    sequence of cores and an ordered sequence of optional factor matrices,
    one per dimension; the code reads [t.ndim], [t.cores] and [t.Us], and an
    entry of [t.Us] is [None] when the factor matrix is absent. *)
Record network : Type := {
  ndim : nat;
  cores : list ref;
  Us : list (option ref)
}.

(** One core and one optional factor per dimension. *)
Definition wf_network (t : network) : Prop :=
  length (cores t) = ndim t /\ length (Us t) = ndim t.

(** ** [dof] *)

Section Dof.

Variable h : heap.

(** The body of [for n in range(t.ndim)], run over the indices [ns]. *)
Fixpoint dof_loop (t : network) (ns : list nat) (result : nat) : res nat :=
  match ns with
  | [] => Ok result
  | n :: ns' =>
      c <- index (cores t) n ;;
      let result :=
        if requires_grad (h c) then result + numel (h c) else result in
      u <- index (Us t) n ;;
      let result :=
        match u with
        | Some U => if requires_grad (h U) then result + numel (h U) else result
        | None => result
        end in
      dof_loop t ns' result
  end.

Definition dof (t : network) : res nat :=
  dof_loop t (seq 0 (ndim t)) 0.

(** What the documentation of [dof] says: the sizes of the learnable
    cores, plus the sizes of the learnable factor matrices that are
    present. *)
Definition learnable (r : ref) : bool := requires_grad (h r).

Definition present (us : list (option ref)) : list ref :=
  flat_map (fun u => match u with Some U => [U] | None => [] end) us.

Definition learnable_numel (rs : list ref) : nat :=
  list_sum (map (fun r => numel (h r)) (filter learnable rs)).

Definition dof_spec (t : network) : nat :=
  learnable_numel (cores t) + learnable_numel (present (Us t)).

(** The contribution of one core, and of one factor slot. *)
Definition core_contribution (c : ref) : nat :=
  if requires_grad (h c) then numel (h c) else 0.

Definition factor_contribution (u : option ref) : nat :=
  match u with
  | Some U => if requires_grad (h U) then numel (h U) else 0
  | None => 0
  end.

End Dof.

(** ** Numbers *)

(** The value of a scalar tensor or of a Python float: a zero, an
    infinity, NaN or a finite binary number. *)
Definition float : Type := spec_float.

Definition nan : float := S754_nan.

(** [float('-inf')] *)
Definition neg_inf : float := S754_infinity true.

(** The format of the tensors: the number of bits of the mantissa and the
    exponent of the infinities, 24 and 128 for [torch.float32]. *)
Class Format : Type := {
  prec : Z;
  emax : Z
}.

Section Arithmetic.

Context {fmt : Format}.

(** [x + y], [x - y] and [x / y] on tensors, rounded to nearest even. *)
Definition t_add (x y : float) : float := SFadd prec emax x y.
Definition t_sub (x y : float) : float := SFsub prec emax x y.
Definition t_div (x y : float) : float := SFdiv prec emax x y.

(** [-x] *)
Definition t_neg (x : float) : float := SFopp x.

(** [x <= y] and [x < y]. *)
Definition t_le (x y : float) : bool := SFleb x y.
Definition t_lt (x y : float) : bool := SFltb x y.

(** A Python float as the tensor library takes it in an operation with a
    tensor: rounded to the format of the tensor. *)
Definition to_dtype (x : float) : float :=
  match x with
  | S754_finite s m e => binary_round prec emax s m e
  | _ => x
  end.

End Arithmetic.

(** ** What the loss function returns *)

Inductive loss_value : Type :=
| Scalar (x : float)             (* not a tuple or list *)
| Sequence (xs : list float).    (* a tuple or list of scalars *)

(** [if not isinstance(loss, (tuple, list)): loss = [loss]] *)
Definition as_sequence (v : loss_value) : list float :=
  match v with
  | Scalar x => [x]
  | Sequence xs => xs
  end.

(** [reduce(lambda x, y: x + y, loss)], which raises on an empty sequence. *)
Definition reduce_add {fmt : Format} (loss : list float) : res float :=
  match loss with
  | [] => Raise TypeError
  | x :: rest => Ok (fold_left t_add rest x)
  end.

(** ** The state of a run *)

(** What the driver does to its collaborators, in order. *)
Inductive event : Type :=
| AdamInit (parameters : list ref)   (* torch.optim.Adam(parameters) *)
| ZeroGrad                           (* optimizer.zero_grad() *)
| LossEval (v : loss_value)          (* loss = loss_function( *tensors) *)
| Divide (num den : float)           (* -delta_loss / losses[-1] *)
| Backward                           (* losses[-1].backward() *)
| Step.                              (* optimizer.step() *)

(** A printed line: the iteration, the loss terms, their sum when there is
    more than one term, and for the last line the status. *)
Inductive line : Type :=
| Progress (iter : Z) (terms : list float) (total : option float)
| Final (iter : Z) (terms : list float) (total : option float)
        (converged : bool).

Record state (Store : Type) : Type := {
  store : Store;          (* tensor values, gradients, optimizer moments *)
  losses : list float;    (* the loss trace, oldest first *)
  loss : list float;      (* the terms of the latest loss *)
  iter : Z;
  trace : list event;
  out : list line         (* the console *)
}.

Inductive ctl (Store : Type) : Type :=
| Next (s : state Store)                        (* on to the next pass *)
| Stop (converged : bool) (s : state Store)     (* break *)
| Fail (e : exn) (s : state Store).

Inductive outcome (Store : Type) : Type :=
| Returned (converged : bool) (s : state Store)
| Raised (e : exn) (s : state Store).

(** [tensors]: one network, or a list or tuple of networks. *)
Inductive tensors_arg : Type :=
| Single (t : network)
| Many (ts : list network).

(** [if not isinstance(tensors, (list, tuple)): tensors = [tensors]] *)
Definition as_list (tensors : tensors_arg) : list network :=
  match tensors with
  | Single t => [t]
  | Many ts => ts
  end.

(** ** [optimize] *)

Section Driver.

Context {fmt : Format}.

Variable h : heap.

(** The collaborators. *)
Variable Store : Type.
Variable loss_function : list network -> Store -> loss_value * Store.
Variable zero_grad : list ref -> Store -> Store.
Variable backward : Store -> Store.
Variable adam_step : list ref -> Store -> Store.

(** [[U for U in t.Us if U is not None and U.requires_grad]] *)
Definition learnable_Us (t : network) : list ref :=
  flat_map (fun u =>
              match u with
              | Some U => if requires_grad (h U) then [U] else []
              | None => []
              end) (Us t).

(** The loop [for t in tensors:] with its two [parameters.extend(..)]. *)
Definition collect_parameters (tensors : list network) : list ref :=
  fold_left (fun parameters t =>
               (parameters ++ filter (fun c => requires_grad (h c)) (cores t))
                 ++ learnable_Us t)
            tensors [].

(** [delta_loss], computed after the append. *)
Definition delta_loss_of (losses : list float) : res float :=
  if (2 <=? length losses)%nat then
    a <- neg_index losses 1 ;;
    b <- neg_index losses 2 ;;
    Ok (t_sub a b)
  else Ok neg_inf.

(** [losses[-2] - losses[-1] < losses[-3] - losses[-2]] *)
Definition decelerating (losses : list float) : res bool :=
  l2 <- neg_index losses 2 ;;
  l1 <- neg_index losses 1 ;;
  l3 <- neg_index losses 3 ;;
  l2' <- neg_index losses 2 ;;
  Ok (t_lt (t_sub l2 l1) (t_sub l3 l2')).

(** The condition of the [if] that sets [converged], evaluated left to
    right with the short cuts of [and] and [or]; the second component
    lists the divisions that were evaluated.  [tol] is a Python float, and
    both comparisons with it are made in the format of the tensors. *)
Definition stop_test (iter : Z) (tol : option float) (losses : list float)
    (delta_loss : float) : res bool * list event :=
  if (2 <=? iter)%Z then
    match tol with
    | None => (Ok false, [])
    | Some tol =>
        match neg_index losses 1 with
        | Raise e => (Raise e, [])
        | Ok l1 =>
            if t_le l1 (to_dtype tol) then (decelerating losses, [])
            else
              let num := t_neg delta_loss in
              if t_le (t_div num l1) (to_dtype tol)
              then (decelerating losses, [Divide num l1])
              else (Ok false, [Divide num l1])
        end
    end
  else (Ok false, []).

(** The sum is printed [if len(loss) > 1]. *)
Definition shown_total (loss : list float) (total : float) : option float :=
  if (1 <? length loss)%nat then Some total else None.

(** [if verbose and iter % print_freq == 0: print(..)] *)
Definition progress (verbose : bool) (iter print_freq : Z)
    (loss : list float) (total : float) : res (list line) :=
  if verbose then
    if (print_freq =? 0)%Z then Raise ZeroDivisionError
    else if (iter mod print_freq =? 0)%Z
         then Ok [Progress iter loss (shown_total loss total)]
         else Ok []
  else Ok [].

Section Loop.

Variable tensors : list network.
Variable parameters : list ref.
Variable tol : option float.
Variable max_iter print_freq : Z.
Variable verbose : bool.

(** One pass through the body of [while True]. *)
Definition body (s : state Store) : ctl Store :=
  let store1 := zero_grad parameters (store s) in
  let '(v, store2) := loss_function tensors store1 in
  let loss := as_sequence v in
  let trace1 := trace s ++ [ZeroGrad; LossEval v] in
  match reduce_add loss with
  | Raise e =>
      Fail e {| store := store2; losses := losses s; loss := loss;
                iter := iter s; trace := trace1; out := out s |}
  | Ok total =>
      let losses' := losses s ++ [total] in
      match delta_loss_of losses' with
      | Raise e =>
          Fail e {| store := store2; losses := losses'; loss := loss;
                    iter := iter s; trace := trace1; out := out s |}
      | Ok delta_loss =>
          let '(test, divs) := stop_test (iter s) tol losses' delta_loss in
          let s2 := {| store := store2; losses := losses'; loss := loss;
                       iter := iter s; trace := trace1 ++ divs;
                       out := out s |} in
          match test with
          | Raise e => Fail e s2
          | Ok true => Stop true s2
          | Ok false =>
              if (iter s =? max_iter)%Z then Stop false s2
              else
                match progress verbose (iter s) print_freq loss total with
                | Raise e => Fail e s2
                | Ok lines =>
                    Next {| store := adam_step parameters (backward store2);
                            losses := losses'; loss := loss;
                            iter := (iter s + 1)%Z;
                            trace := (trace1 ++ divs) ++ [Backward; Step];
                            out := out s ++ lines |}
                end
          end
      end
  end.

(** [if verbose: print(..)] after the loop; [losses[-1]] is read only
    [if len(loss) > 1]. *)
Definition finish (converged : bool) (s : state Store) : outcome Store :=
  let say total :=
    {| store := store s; losses := losses s; loss := loss s;
       iter := iter s; trace := trace s;
       out := out s ++ [Final (iter s) (loss s) total converged] |} in
  if verbose then
    if (1 <? length (loss s))%nat then
      match neg_index (losses s) 1 with
      | Raise e => Raised e s
      | Ok total => Returned converged (say (Some total))
      end
    else Returned converged (say None)
  else Returned converged s.

(** [while True], with a bound on the number of passes: [None] when the
    bound is reached before the loop is left. *)
Fixpoint loop (fuel : nat) (s : state Store) : option (outcome Store) :=
  match fuel with
  | O => None
  | S fuel' =>
      match body s with
      | Next s' => loop fuel' s'
      | Stop converged s' => Some (finish converged s')
      | Fail e s' => Some (Raised e s')
      end
  end.

End Loop.

Definition optimize (fuel : nat) (tensors : tensors_arg)
    (tol : option float)
    (max_iter print_freq : Z) (verbose : bool) (st : Store)
    : option (outcome Store) :=
  let tensors := as_list tensors in
  let parameters := collect_parameters tensors in
  if (length parameters =? 0)%nat then
    Some (Raised ValueError
            {| store := st; losses := []; loss := []; iter := 0%Z;
               trace := []; out := [] |})
  else
    loop tensors parameters tol max_iter print_freq verbose fuel
         {| store := st; losses := []; loss := []; iter := 0%Z;
            trace := [AdamInit parameters]; out := [] |}.

End Driver.

(** ** The vocabulary of the specification *)

(** The loss of iteration [n] in a trace. *)
Definition loss_at (L : list float) (n : nat) : float := nth n L nan.

(** The stopping criterion at iteration [n], written over the trace by
    iteration number, with the operations of the tensors. *)
Definition criterion_at {fmt : Format} (tol : option float)
    (L : list float) (n : nat) : Prop :=
  2 <= n /\
  exists t, tol = Some t /\
    (t_le (loss_at L n) (to_dtype t) = true \/
     t_le (t_div (t_neg (t_sub (loss_at L n) (loss_at L (n - 1))))
                 (loss_at L n))
          (to_dtype t) = true) /\
    t_lt (t_sub (loss_at L (n - 1)) (loss_at L n))
         (t_sub (loss_at L (n - 2)) (loss_at L (n - 1))) = true.

(** The results of the loss evaluations in a trace, in order. *)
Definition loss_results (tr : list event) : list loss_value :=
  flat_map (fun e => match e with LossEval v => [v] | _ => [] end) tr.

Definition is_step (e : event) : bool :=
  match e with Step => true | _ => false end.

Definition num_evals (tr : list event) : nat := length (loss_results tr).
Definition num_steps (tr : list event) : nat := length (filter is_step tr).

(** The optimizers that were created, with the parameters given to them. *)
Definition handed_over (tr : list event) : list (list ref) :=
  flat_map (fun e => match e with AdamInit ps => [ps] | _ => [] end) tr.

(** The terms of a loss result, in the words of the specification: a
    result that is not a sequence is the one term of a singleton
    sequence. *)
Definition terms_of (v : loss_value) : list float :=
  match v with
  | Scalar x => [x]
  | Sequence xs => xs
  end.

(** The sum of terms given last term first: the last term added to the
    sum of those before it; no term, no sum. *)
Fixpoint sum_backwards {fmt : Format} (r : list float) : option float :=
  match r with
  | [] => None
  | x :: before =>
      match before with
      | [] => Some x
      | _ => option_map (fun s => t_add s x) (sum_backwards before)
      end
  end.

Definition sum_of_terms {fmt : Format} (xs : list float) : option float :=
  sum_backwards (rev xs).

(** [total] is what the trace records for the loss result [v]: the sum of
    its terms; itself for a result that is not a sequence, and [a + b] for
    a pair. *)
Definition recorded {fmt : Format} (v : loss_value) (total : float)
    : Prop :=
  sum_of_terms (terms_of v) = Some total /\
  (forall x, v = Scalar x -> total = x) /\
  (forall a b, v = Sequence [a; b] -> total = t_add a b).

(** A division by a loss that is strictly above [t]. *)
Definition division_above {fmt : Format} (t : float) (e : event) : Prop :=
  match e with
  | Divide _ den => t_lt (to_dtype t) den = true
  | _ => True
  end.

(** A division by a loss for which [losses[-1] <= tol] is false: the loss
    is strictly above [t] or NaN, and it is no number that is [<= t]. *)
Definition guarded_division {fmt : Format} (t : float) (e : event)
    : Prop :=
  match e with
  | Divide _ den =>
      t_le den (to_dtype t) = false /\
      (t_lt (to_dtype t) den = true \/ den = nan) /\
      forall z, t_le z (to_dtype t) = true -> den <> z
  | _ => True
  end.

(** A run without what it printed. *)
Definition silent {Store : Type} (s : state Store) : state Store :=
  {| store := store s; losses := losses s; loss := loss s; iter := iter s;
     trace := trace s; out := [] |}.

Definition observe {Store : Type} (o : outcome Store) : outcome Store :=
  match o with
  | Returned c s => Returned c (silent s)
  | Raised e s => Raised e (silent s)
  end.

Definition final_state {Store : Type} (o : outcome Store) : state Store :=
  match o with
  | Returned _ s => s
  | Raised _ s => s
  end.

Definition converged_of {Store : Type} (o : outcome Store) : bool :=
  match o with
  | Returned c _ => c
  | Raised _ _ => false
  end.

(** At the head of the loop the trace holds one loss per finished
    iteration; after the append it holds one more. *)
Definition at_head {Store : Type} (s : state Store) : Prop :=
  (0 <= iter s)%Z /\ length (losses s) = Z.to_nat (iter s).

Definition after_append {Store : Type} (s : state Store) : Prop :=
  (0 <= iter s)%Z /\ length (losses s) = S (Z.to_nat (iter s)).

(** The divisions of one pass: none, or one whose denominator failed the
    test [losses[-1] <= tol]. *)
Definition quotient_events {fmt : Format} (tol : option float)
    (divs : list event) : Prop :=
  divs = [] \/
  exists t num den,
    tol = Some t /\ t_le den (to_dtype t) = false /\
    divs = [Divide num den].

(** How often the object [r] occurs among the cores and the present
    factor matrices of the networks. *)
Definition occurrences (r : ref) (tensors : list network) : nat :=
  list_sum (map (fun t => count_occ Nat.eq_dec (cores t) r
                          + count_occ Nat.eq_dec (present (Us t)) r)
                tensors).

(** No core and no present factor matrix of the networks is learnable. *)
Definition all_frozen (h : heap) (tensors : list network) : Prop :=
  forall t, In t tensors ->
    (forall c, In c (cores t) -> requires_grad (h c) = false) /\
    (forall U, In (Some U) (Us t) -> requires_grad (h U) = false).

(** ** Reading runs: calls, lines and stores *)

Definition is_zero_grad (e : event) : bool :=
  match e with ZeroGrad => true | _ => false end.

Definition is_backward (e : event) : bool :=
  match e with Backward => true | _ => false end.

Definition is_divide (e : event) : bool :=
  match e with Divide _ _ => true | _ => false end.

Definition num_zero_grads (tr : list event) : nat :=
  length (filter is_zero_grad tr).

Definition num_backwards (tr : list event) : nat :=
  length (filter is_backward tr).

(** The calls to the collaborators, without the divisions. *)
Definition calls (tr : list event) : list event :=
  filter (fun e => negb (is_divide e)) tr.

(** The calls of a pass that goes on to the next one. *)
Definition full_pass (v : loss_value) : list event :=
  [ZeroGrad; LossEval v; Backward; Step].

(** A division that is the quotient of the test at an iteration from 2
    on of the trace [L]: the last loss under the negated difference of the
    last two losses, not under the first [delta_loss]. *)
Definition division_of {fmt : Format} (L : list float) (e : event) : Prop :=
  match e with
  | Divide num den =>
      exists n, 2 <= n < length L /\ den = loss_at L n /\
                num = t_neg (t_sub (loss_at L n) (loss_at L (n - 1)))
  | _ => True
  end.

Definition line_iter (l : line) : Z :=
  match l with
  | Progress i _ _ => i
  | Final i _ _ _ => i
  end.

Definition is_progress (l : line) : bool :=
  match l with Progress _ _ _ => true | Final _ _ _ _ => false end.

(** The iterations below [n] at which a progress line is due. *)
Definition progress_iters (print_freq : Z) (n : nat) : list Z :=
  filter (fun i => (i mod print_freq =? 0)%Z) (map Z.of_nat (seq 0 n)).

Section Passes.

Context {fmt : Format}.

Variable Store : Type.
Variable loss_function : list network -> Store -> loss_value * Store.
Variable zero_grad : list ref -> Store -> Store.
Variable backward : Store -> Store.
Variable adam_step : list ref -> Store -> Store.
Variable tensors : list network.
Variable parameters : list ref.

(** [optimizer.zero_grad(); loss = loss_function( *tensors)] *)
Definition evaluate (st : Store) : loss_value * Store :=
  loss_function tensors (zero_grad parameters st).

(** The combined loss at a store. *)
Definition loss_of (st : Store) : res float :=
  reduce_add (as_sequence (fst (evaluate st))).

(** The store after one pass that goes on:
    [losses[-1].backward(); optimizer.step()] after the evaluation. *)
Definition update (st : Store) : Store :=
  adam_step parameters (backward (snd (evaluate st))).

(** The store after [n] such passes. *)
Definition store_after (n : nat) (st : Store) : Store :=
  Nat.iter n update st.

End Passes.

(** ** A small instance

    One network with a learnable core, a frozen core and a learnable factor
    matrix.  The store is the value [x] of a single parameter, the loss is
    [x * x] and an optimizer step halves [x]. *)

Module Demo.

Definition demo_heap : heap := fun r =>
  match r with
  | 0 => {| requires_grad := true; numel := 6 |}
  | 1 => {| requires_grad := false; numel := 4 |}
  | 2 => {| requires_grad := true; numel := 3 |}
  | _ => {| requires_grad := false; numel := 0 |}
  end.

Definition demo_net : network :=
  {| ndim := 2; cores := [0; 1]; Us := [Some 2; None] |}.

(** A second network, built on the learnable core of [demo_net]. *)
Definition shared_net : network :=
  {| ndim := 1; cores := [0]; Us := [None] |}.

(** A malformed network: two dimensions, one core. *)
Definition short_net : network :=
  {| ndim := 2; cores := [0]; Us := [None] |}.

(** One dimension, but two cores and two factor slots. *)
Definition long_net : network :=
  {| ndim := 1; cores := [0; 2]; Us := [None; Some 2] |}.

(** A network without a learnable core or factor. *)
Definition frozen_net : network :=
  {| ndim := 1; cores := [1]; Us := [None] |}.

(** The tensors are [torch.float32]. *)
Definition float32 : Format := {| prec := 24; emax := 128 |}.

(** [m * 2^e] as a float32, and as a Python float. *)
Definition f32 (m e : Z) : float := binary_normalize 24 128 m e false.
Definition py (m e : Z) : float := binary_normalize 53 1024 m e false.

(** The Python float [0.1]. *)
Definition tenth : float := SFdiv 53 1024 (py 1 0) (py 10 0).

Definition square_loss (_ : list network) (x : float)
    : loss_value * float :=
  (Scalar (SFmul 24 128 x x), x).

(** A loss with two terms. *)
Definition pair_loss (_ : list network) (x : float) : loss_value * float :=
  (Sequence [SFmul 24 128 x x; f32 1 0], x).

Definition constant_loss (c : float) (_ : list network) (x : float)
    : loss_value * float :=
  (Scalar c, x).

(** A loss function that returns an empty tuple. *)
Definition empty_loss (_ : list network) (x : float) : loss_value * float :=
  (Sequence [], x).

(** The losses 4, 2 and then float32(0.1), along the halving steps
    from 1. *)
Definition stepped_loss (_ : list network) (x : float)
    : loss_value * float :=
  (Scalar (if SFeqb x (f32 1 0) then f32 4 0
           else if SFeqb x (f32 1 (-1)) then f32 2 0
           else SFdiv 24 128 (f32 1 0) (f32 10 0)), x).

Definition stepped_losses (k : nat) : float :=
  match k with
  | 0 => f32 4 0
  | 1 => f32 2 0
  | _ => f32 13421773 (-27)
  end.

(** The pair (16777216, 1), whose sum needs 25 bits. *)
Definition wide_pair_loss (_ : list network) (x : float)
    : loss_value * float :=
  (Sequence [f32 16777216 0; f32 1 0], x).

Definition keep (_ : list ref) (x : float) : float := x.
Definition halve (_ : list ref) (x : float) : float :=
  SFmul 24 128 x (f32 1 (-1)).

Definition run (loss_function : list network -> float -> loss_value * float)
    (fuel : nat) (tensors : tensors_arg) (tol : option float)
    (max_iter print_freq : Z) (verbose : bool) : option (outcome float) :=
  optimize (fmt := float32) demo_heap loss_function keep (fun x => x) halve
           fuel tensors tol max_iter print_freq verbose (f32 1 0).

End Demo.


(** * Properties *)

Unset Implicit Arguments.

(** ** Indexing *)

Lemma index_nth (A : Type) (l : list A) (n : nat) (d : A) :
  n < length l -> index l n = Ok (nth n l d).
Proof.
  intros Hn. unfold index. now rewrite (nth_error_nth' l d Hn).
Qed.

Lemma index_middle (A : Type) (l l' : list A) (x : A) :
  index (l ++ x :: l') (length l) = Ok x.
Proof.
  unfold index. now rewrite nth_error_app2, Nat.sub_diag by lia.
Qed.

Lemma neg_index_nth (A : Type) (l : list A) (k : nat) (d : A) :
  1 <= k <= length l -> neg_index l k = Ok (nth (length l - k) l d).
Proof.
  intros Hk. unfold neg_index.
  destruct (Nat.leb_spec k (length l)); [|lia].
  apply index_nth. lia.
Qed.

(** ** [dof] *)

Section DofFacts.

Variable h : heap.

Lemma dof_loop_sum (t : network) (cs : list ref) :
  forall (us : list (option ref)) (cs0 : list ref) (us0 : list (option ref))
         (acc : nat),
    cores t = cs0 ++ cs -> Us t = us0 ++ us ->
    length us0 = length cs0 -> length us = length cs ->
    dof_loop h t (seq (length cs0) (length cs)) acc
    = Ok (acc + (list_sum (map (core_contribution h) cs)
                 + list_sum (map (factor_contribution h) us))).
Proof.
  induction cs as [|c cs IH]; intros us cs0 us0 acc Hc Hu Hl0 Hl.
  - destruct us; [|discriminate]. simpl. f_equal. lia.
  - destruct us as [|u us]; [discriminate|].
    cbn [length seq dof_loop].
    rewrite Hc, index_middle. cbn [bind].
    rewrite Hu, <- Hl0, index_middle. cbn [bind].
    replace (S (length us0)) with (length (cs0 ++ [c]))
      by (rewrite length_app; simpl; lia).
    rewrite (IH us (cs0 ++ [c]) (us0 ++ [u])).
    + f_equal. unfold list_sum. cbn [map fold_right].
      generalize (fold_right Nat.add 0 (map (core_contribution h) cs)).
      generalize (fold_right Nat.add 0 (map (factor_contribution h) us)).
      intros a b. unfold core_contribution, factor_contribution.
      destruct u as [U|]; destruct (requires_grad (h c));
        try destruct (requires_grad (h U)); lia.
    + now rewrite <- app_assoc.
    + now rewrite <- app_assoc.
    + rewrite !length_app. simpl. lia.
    + simpl in Hl. lia.
Qed.

Lemma core_contributions (cs : list ref) :
  list_sum (map (core_contribution h) cs) = learnable_numel h cs.
Proof.
  unfold learnable_numel, learnable, core_contribution.
  induction cs as [|c cs IH]; simpl; [reflexivity|].
  destruct (requires_grad (h c)); simpl; lia.
Qed.

Lemma factor_contributions (us : list (option ref)) :
  list_sum (map (factor_contribution h) us) = learnable_numel h (present us).
Proof.
  unfold learnable_numel, learnable, factor_contribution, present.
  induction us as [|[U|] us IH]; simpl; [reflexivity| |exact IH].
  destruct (requires_grad (h U)); simpl; lia.
Qed.

(** C3.  On a network with one core and one optional factor matrix per
    dimension, [dof] returns the sum of the element counts of the learnable
    cores plus those of the learnable factor matrices that are present; said
    per slot, a core or factor that is not learnable and an absent factor
    count for 0. *)
Theorem dof_counts_learnable (t : network) :
  wf_network t ->
  dof h t = Ok (dof_spec h t) /\
  dof_spec h t = list_sum (map (core_contribution h) (cores t))
                 + list_sum (map (factor_contribution h) (Us t)).
Proof.
  intros [Hc Hu]. unfold dof, dof_spec.
  rewrite <- core_contributions, <- factor_contributions.
  split; [|reflexivity].
  rewrite <- Hc.
  apply (dof_loop_sum t (cores t) (Us t) [] [] 0); auto. lia.
Qed.

End DofFacts.

Lemma dof_counts_learnable_witness :
  wf_network Demo.demo_net /\
  dof Demo.demo_heap Demo.demo_net = Ok 9.
Proof.
  split; [split; reflexivity|].
  apply (dof_counts_learnable Demo.demo_heap Demo.demo_net).
  split; reflexivity.
Defined.

(** On a network with fewer cores than dimensions the indexing fails. *)
Lemma dof_malformed_raises :
  dof Demo.demo_heap Demo.short_net = Raise IndexError.
Proof. reflexivity. Qed.

(** ** Comparisons *)

Lemma t_lt_irrefl (x : float) : t_lt x x = false.
Proof.
  unfold t_lt, SFltb.
  destruct x as [s|s| |s m e]; try (destruct s; reflexivity);
    [reflexivity|].
  cbn [SFcompare]. rewrite Z.compare_refl.
  change (Pos.compare_cont Eq m m) with (Pos.compare m m).
  rewrite Pos.compare_refl. now destruct s.
Qed.

Lemma SFcompare_antisym (x y : float) :
  SFcompare y x = option_map CompOpp (SFcompare x y).
Proof.
  destruct x as [sx|sx| |sx mx ex], y as [sy|sy| |sy my ey];
    try reflexivity;
    try (destruct sx; reflexivity);
    try (destruct sy; reflexivity);
    try (destruct sx, sy; reflexivity).
  cbn [SFcompare option_map].
  rewrite (Z.compare_antisym ex ey).
  change (Pos.compare_cont Eq my mx) with (Pos.compare my mx).
  change (Pos.compare_cont Eq mx my) with (Pos.compare mx my).
  rewrite (Pos.compare_antisym mx my).
  destruct sx, sy; try reflexivity;
    destruct (ex ?= ey)%Z; try reflexivity;
    destruct (mx ?= my)%positive; reflexivity.
Qed.

(** [x <= y] is false when [y < x] and when one of them is NaN, and only
    then. *)
Lemma t_le_false (x y : float) :
  t_le x y = false -> t_lt y x = true \/ x = nan \/ y = nan.
Proof.
  unfold t_le, t_lt, SFleb, SFltb. rewrite (SFcompare_antisym x y).
  destruct (SFcompare x y) as [[| |]|] eqn:E; cbn; try discriminate; auto.
  intros _. right.
  destruct x as [sx|sx| |sx mx ex], y as [sy|sy| |sy my ey];
    cbn in E; try discriminate; auto;
    try (destruct sx; discriminate); try (destruct sy; discriminate);
    destruct sx, sy; try discriminate;
    destruct (ex ?= ey)%Z; try discriminate;
    destruct (Pos.compare_cont Eq mx my); discriminate.
Qed.

Lemma t_le_nan_r (x : float) : t_le x nan = false.
Proof. now destruct x. Qed.

(** The sign of a zero does not matter in a comparison. *)
Lemma t_le_zero_sign (s : bool) (y : float) :
  t_le (S754_zero s) y = t_le (S754_zero false) y.
Proof. now destruct y. Qed.

(** ** Rounding *)

Lemma shr_1_nonneg (mrs : shr_record) :
  (0 <= shr_m mrs)%Z -> (0 <= shr_m (shr_1 mrs))%Z.
Proof.
  destruct mrs as [[|[p|p|]|p] r s]; cbn; lia.
Qed.

Lemma iter_pos_shr_1_nonneg (n : positive) :
  forall mrs, (0 <= shr_m mrs)%Z -> (0 <= shr_m (iter_pos shr_1 n mrs))%Z.
Proof.
  induction n as [n IH|n IH|]; intros mrs H; cbn [iter_pos].
  - apply IH, IH, shr_1_nonneg, H.
  - apply IH, IH, H.
  - apply shr_1_nonneg, H.
Qed.

Lemma shr_fexp_nonneg (p e m ex : Z) (l : location) :
  (0 <= m)%Z -> (0 <= shr_m (fst (shr_fexp p e m ex l)))%Z.
Proof.
  intros H. unfold shr_fexp, shr.
  assert (H0 : (0 <= shr_m (shr_record_of_loc m l))%Z)
    by (destruct l as [|[| |]]; exact H).
  destruct (_ - ex)%Z; cbn [fst]; auto.
  now apply iter_pos_shr_1_nonneg.
Qed.

Lemma round_nearest_even_nonneg (m : Z) (l : location) :
  (0 <= m)%Z -> (0 <= round_nearest_even m l)%Z.
Proof.
  intros H. destruct l as [|[| |]]; cbn; try destruct (Z.even m); lia.
Qed.

(** Rounding a positive number gives no NaN and nothing negative. *)
Lemma binary_round_aux_nonneg (p e : Z) (m : positive) (ex : Z) :
  t_le (S754_zero false)
       (binary_round_aux p e false (Z.pos m) ex loc_Exact) = true.
Proof.
  unfold binary_round_aux.
  pose proof (shr_fexp_nonneg p e (Z.pos m) ex loc_Exact) as H1.
  destruct (shr_fexp p e (Z.pos m) ex loc_Exact) as [mrs' e'].
  cbn [fst] in H1. specialize (H1 ltac:(lia)).
  pose proof (shr_fexp_nonneg p e
                (round_nearest_even (shr_m mrs') (loc_of_shr_record mrs'))
                e' loc_Exact
                (round_nearest_even_nonneg _ _ H1)) as H2.
  destruct (shr_fexp p e _ e' loc_Exact) as [mrs'' e''].
  cbn [fst] in H2.
  destruct (shr_m mrs'') as [|q|q]; [reflexivity| |lia].
  now destruct (e'' <=? e - p)%Z.
Qed.

(** ** The stopping test *)

Section TestFacts.

Context {fmt : Format}.

(** A tolerance [>= 0] is [>= 0] in the format of the tensors. *)
Lemma to_dtype_nonneg (t : float) :
  t_le (S754_zero false) t = true ->
  t_le (S754_zero false) (to_dtype t) = true.
Proof.
  destruct t as [s|s| |s m e]; cbn [to_dtype]; auto.
  destruct s; [discriminate|]. intros _.
  unfold binary_round.
  destruct (shl_align m e _) as [mz ez].
  apply binary_round_aux_nonneg.
Qed.

Lemma delta_loss_of_total (L : list float) :
  exists delta, delta_loss_of L = Ok delta.
Proof.
  unfold delta_loss_of.
  destruct (Nat.leb_spec 2 (length L)) as [H|H]; [|now eexists].
  rewrite (neg_index_nth float L 1 nan), (neg_index_nth float L 2 nan) by lia.
  simpl. now eexists.
Qed.

(** The divisions of one test: none, or the one quotient. *)
Lemma stop_test_divisions (i : Z) (tol : option float) (L : list float)
    (delta : float) (r : res bool) (divs : list event) :
  stop_test i tol L delta = (r, divs) ->
  divs = [] \/
  exists t l1, tol = Some t /\ neg_index L 1 = Ok l1 /\
               t_le l1 (to_dtype t) = false /\
               divs = [Divide (t_neg delta) l1].
Proof.
  unfold stop_test.
  destruct (2 <=? i)%Z; [|intros [= _ <-]; now left].
  destruct tol as [t|]; [|intros [= _ <-]; now left].
  destruct (neg_index L 1) as [l1|e]; [|intros [= _ <-]; now left].
  destruct (t_le l1 (to_dtype t)) eqn:E; [intros [= _ <-]; now left|].
  right. exists t, l1.
  destruct (t_le (t_div _ _) _); injection H as _ <-; auto.
Qed.

(** At iteration [i], after the append, the test is the criterion of the
    specification at [i]. *)
Lemma stop_test_spec (i : Z) (tol : option float) (L : list float) :
  (0 <= i)%Z -> length L = S (Z.to_nat i) ->
  exists delta b divs,
    delta_loss_of L = Ok delta /\
    stop_test i tol L delta = (Ok b, divs) /\
    (b = true <-> criterion_at tol L (Z.to_nat i)).
Proof.
  intros Hi Hlen. set (n := Z.to_nat i) in *.
  unfold stop_test, criterion_at.
  destruct (Z.leb_spec 2 i) as [H2|H2].
  - assert (Hn : 2 <= n) by (unfold n; lia).
    assert (E1 : neg_index L 1 = Ok (loss_at L n)).
    { rewrite (neg_index_nth float L 1 nan) by lia.
      unfold loss_at. do 2 f_equal. lia. }
    assert (E2 : neg_index L 2 = Ok (loss_at L (n - 1))).
    { rewrite (neg_index_nth float L 2 nan) by lia.
      unfold loss_at. do 2 f_equal. lia. }
    assert (E3 : neg_index L 3 = Ok (loss_at L (n - 2))).
    { rewrite (neg_index_nth float L 3 nan) by lia.
      unfold loss_at. do 2 f_equal. lia. }
    assert (ED : delta_loss_of L
                 = Ok (t_sub (loss_at L n) (loss_at L (n - 1)))).
    { unfold delta_loss_of.
      destruct (Nat.leb_spec 2 (length L)); [|lia].
      now rewrite E1, E2. }
    assert (EC : decelerating L
                 = Ok (t_lt (t_sub (loss_at L (n - 1)) (loss_at L n))
                            (t_sub (loss_at L (n - 2))
                                   (loss_at L (n - 1))))).
    { unfold decelerating. now rewrite E1, E2, E3. }
    rewrite ED. eexists.
    destruct tol as [t|].
    + rewrite E1, EC. cbv zeta.
      destruct (t_le (loss_at L n) (to_dtype t)) eqn:Ele.
      * do 2 eexists. split; [reflexivity|]. split; [reflexivity|].
        split.
        -- intros Hd. split; [exact Hn|]. exists t. auto.
        -- intros (_ & t' & [= <-] & _ & Hd). exact Hd.
      * destruct (t_le (t_div _ _) _) eqn:Eq.
        -- do 2 eexists. split; [reflexivity|]. split; [reflexivity|].
           split.
           ++ intros Hd. split; [exact Hn|]. exists t. auto.
           ++ intros (_ & t' & [= <-] & _ & Hd). exact Hd.
        -- do 2 eexists. split; [reflexivity|]. split; [reflexivity|].
           split; [discriminate|].
           intros (_ & t' & [= <-] & [Hle|Hq] & _); congruence.
    + do 2 eexists. split; [reflexivity|]. split; [reflexivity|].
      split; [discriminate|]. intros (_ & t & [=] & _).
  - destruct (delta_loss_of_total L) as [delta ->].
    exists delta, false, []. split; [reflexivity|]. split; [reflexivity|].
    split; [discriminate|]. intros [Hn _]. unfold n in Hn. lia.
Qed.

(** Appending later losses does not change the criterion at an earlier
    iteration. *)
Lemma criterion_at_app (tol : option float) (L : list float) (x : float)
    (n : nat) :
  n < length L ->
  criterion_at tol (L ++ [x]) n <-> criterion_at tol L n.
Proof.
  intros Hn. unfold criterion_at, loss_at.
  rewrite !(app_nth1 L [x]) by lia. reflexivity.
Qed.

(** ** Sums *)

(** [reduce] adds from the left, which is the sum of the terms. *)
Lemma sum_backwards_fold (rest : list float) :
  forall x, sum_backwards (rev (x :: rest)) = Some (fold_left t_add rest x).
Proof.
  induction rest as [|y rest IH] using rev_ind; intros x; [reflexivity|].
  rewrite app_comm_cons, rev_app_distr, fold_left_app.
  change (rev [y]) with [y]. cbn [app fold_left].
  specialize (IH x).
  destruct (rev (x :: rest)) as [|z r] eqn:E; [discriminate|].
  change (sum_backwards (y :: z :: r))
    with (option_map (fun s => t_add s y) (sum_backwards (z :: r))).
  now rewrite IH.
Qed.

Lemma reduce_add_sum (xs : list float) (total : float) :
  reduce_add xs = Ok total <-> sum_of_terms xs = Some total.
Proof.
  unfold sum_of_terms. destruct xs as [|x rest].
  - split; discriminate.
  - rewrite sum_backwards_fold. cbn [reduce_add].
    split; intros [= ->]; reflexivity.
Qed.

(** What is appended for a loss result is what the specification says is
    recorded for it. *)
Lemma reduce_add_recorded (v : loss_value) (total : float) :
  reduce_add (as_sequence v) = Ok total -> recorded v total.
Proof.
  intros Hred. split; [|split].
  - apply reduce_add_sum. now destruct v.
  - intros x ->. now injection Hred as <-.
  - intros a b ->. now injection Hred as <-.
Qed.

Lemma as_sequence_nil (v : loss_value) :
  as_sequence v = [] -> terms_of v = [].
Proof. now destruct v. Qed.

(** ** Reading traces *)

Lemma loss_results_app (a b : list event) :
  loss_results (a ++ b) = loss_results a ++ loss_results b.
Proof. apply flat_map_app. Qed.

Lemma handed_over_app (a b : list event) :
  handed_over (a ++ b) = handed_over a ++ handed_over b.
Proof. apply flat_map_app. Qed.

Lemma num_evals_app (a b : list event) :
  num_evals (a ++ b) = num_evals a + num_evals b.
Proof.
  unfold num_evals. now rewrite loss_results_app, length_app.
Qed.

Lemma num_steps_app (a b : list event) :
  num_steps (a ++ b) = num_steps a + num_steps b.
Proof.
  unfold num_steps. now rewrite filter_app, length_app.
Qed.

Lemma quotient_events_silent (tol : option float) (divs : list event) :
  quotient_events tol divs ->
  loss_results divs = [] /\ handed_over divs = [] /\
  num_evals divs = 0 /\ num_steps divs = 0.
Proof.
  intros [->|(t & num & den & _ & _ & ->)]; repeat split; reflexivity.
Qed.

(** The events of a pass that falls through, and of a pass that leaves. *)
Lemma pass_events_next (tol : option float) (v : loss_value)
    (divs : list event) :
  quotient_events tol divs ->
  let evs := ZeroGrad :: LossEval v :: divs ++ [Backward; Step] in
  loss_results evs = [v] /\ handed_over evs = [] /\
  num_evals evs = 1 /\ num_steps evs = 1.
Proof.
  intros [->|(t & num & den & _ & _ & ->)]; repeat split; reflexivity.
Qed.

Lemma pass_events_stop (tol : option float) (v : loss_value)
    (divs : list event) :
  quotient_events tol divs ->
  let evs := ZeroGrad :: LossEval v :: divs in
  loss_results evs = [v] /\ handed_over evs = [] /\
  num_evals evs = 1 /\ num_steps evs = 0.
Proof.
  intros [->|(t & num & den & _ & _ & ->)]; repeat split; reflexivity.
Qed.

(** Under a tolerance that some number is below, the denominator of a
    quotient that is evaluated is above the tolerance or NaN, and it is no
    number below the tolerance. *)
Lemma quotient_events_guarded (t z0 : float) (divs : list event) :
  t_le z0 (to_dtype t) = true -> quotient_events (Some t) divs ->
  Forall (guarded_division t) divs.
Proof.
  intros Ht [->|(t' & num & den & [= <-] & Hle & ->)]; [constructor|].
  constructor; [|constructor]. split; [exact Hle|]. split.
  - destruct (t_le_false _ _ Hle) as [H|[H|H]]; auto.
    rewrite H, t_le_nan_r in Ht. discriminate.
  - intros z Hz ->. congruence.
Qed.

End TestFacts.

(** ** Printing a progress line *)

(** It fails only when verbose with a print frequency of 0. *)
Lemma progress_prints (verbose : bool) (print_freq i : Z) (l : list float)
    (total : float) :
  verbose = false \/ print_freq <> 0%Z ->
  exists lines, progress verbose i print_freq l total = Ok lines.
Proof.
  intros Hp. unfold progress. destruct verbose; [|now eexists].
  destruct Hp as [Hp|Hp]; [discriminate|].
  destruct (Z.eqb_spec print_freq 0); [contradiction|].
  destruct (_ =? 0)%Z; now eexists.
Qed.

(** ** The loop *)

Section LoopFacts.

Context {fmt : Format}.

Variable Store : Type.
Variable loss_function : list network -> Store -> loss_value * Store.
Variable zero_grad : list ref -> Store -> Store.
Variable backward : Store -> Store.
Variable adam_step : list ref -> Store -> Store.
Variable tensors : list network.
Variable parameters : list ref.
Variable tol : option float.
Variable max_iter print_freq : Z.
Variable verbose : bool.

Local Notation "'body_'" :=
  (body loss_function zero_grad backward adam_step
        tensors parameters tol max_iter print_freq verbose).
Local Notation "'loop_'" :=
  (loop loss_function zero_grad backward adam_step
        tensors parameters tol max_iter print_freq verbose).

(** The rule for the loop: an invariant of the passes that fall through
    carries over to every way of leaving. *)
Lemma loop_invariant (I : state Store -> Prop) (P : outcome Store -> Prop) :
  (forall s s', I s -> body_ s = Next s' -> I s') ->
  (forall s c s', I s -> body_ s = Stop c s' -> P (finish verbose c s')) ->
  (forall s e s', I s -> body_ s = Fail e s' -> P (Raised e s')) ->
  forall fuel s o, I s -> loop_ fuel s = Some o -> P o.
Proof.
  intros HN HS HF. induction fuel as [|fuel IH]; intros s o Hs; simpl.
  - discriminate.
  - destruct (body_ s) as [s'|c s'|e s'] eqn:E.
    + apply IH. eapply HN; eauto.
    + intros [= <-]. eapply HS; eauto.
    + intros [= <-]. eapply HF; eauto.
Qed.

(** Printing the last line changes the console only. *)
Lemma finish_returned (c c' : bool) (s s' : state Store) :
  finish verbose c s = Returned c' s' -> c' = c /\ silent s' = silent s.
Proof.
  unfold finish. destruct verbose.
  - destruct (1 <? length (loss s))%nat.
    + destruct (neg_index (losses s) 1); [|discriminate].
      intros [= <- <-]. auto.
    + intros [= <- <-]. auto.
  - intros [= <- <-]. auto.
Qed.

Lemma finish_final_state (c : bool) (s : state Store) :
  silent (final_state (finish verbose c s)) = silent s.
Proof.
  unfold finish. destruct verbose; [|reflexivity].
  destruct (1 <? length (loss s))%nat; [|reflexivity].
  destruct (neg_index (losses s) 1); reflexivity.
Qed.

Lemma silent_fields (s s' : state Store) :
  silent s' = silent s ->
  store s' = store s /\ losses s' = losses s /\ loss s' = loss s /\
  iter s' = iter s /\ trace s' = trace s.
Proof.
  unfold silent. intros [= -> -> -> -> ->]. auto.
Qed.

(** After a pass has left the loop, the last line can be printed. *)
Lemma finish_after_append (c : bool) (s : state Store) :
  after_append s ->
  exists s',
    finish verbose c s = Returned c s' /\ silent s' = silent s /\
    (verbose = true ->
     out s' = out s ++
       [Final (iter s) (loss s)
              (if (1 <? length (loss s))%nat
               then Some (nth (length (losses s) - 1) (losses s) nan)
               else None) c]).
Proof.
  intros [_ Hlen]. unfold finish.
  rewrite (neg_index_nth float (losses s) 1 nan) by lia.
  destruct verbose.
  - destruct (1 <? length (loss s))%nat; eexists;
      (split; [reflexivity|]); (split; [reflexivity|]);
      intros _; reflexivity.
  - eexists. split; [reflexivity|]. split; [reflexivity|]. discriminate.
Qed.

(** One pass, from the head of the loop: it appends one loss, and it
    leaves with [converged] set exactly when the criterion holds at this
    iteration. *)
Lemma body_criterion (s : state Store) :
  at_head s ->
  match body_ s with
  | Next s' =>
      at_head s' /\ iter s' = (iter s + 1)%Z /\
      (exists x, losses s' = losses s ++ [x]) /\
      ~ criterion_at tol (losses s') (Z.to_nat (iter s))
  | Stop c s' =>
      after_append s' /\ iter s' = iter s /\
      (exists x, losses s' = losses s ++ [x]) /\
      (c = true <-> criterion_at tol (losses s') (Z.to_nat (iter s)))
  | Fail _ s' =>
      iter s' = iter s /\
      (losses s' = losses s \/
       (exists x, losses s' = losses s ++ [x]) /\
       ~ criterion_at tol (losses s') (Z.to_nat (iter s)))
  end.
Proof.
  intros [Hi Hl]. unfold body.
  destruct (loss_function tensors _) as [v store2].
  destruct (reduce_add (as_sequence v)) as [total|e]; [|cbn; auto].
  assert (Hlen : length (losses s ++ [total]) = S (Z.to_nat (iter s)))
    by (rewrite length_app; simpl; lia).
  destruct (stop_test_spec (iter s) tol (losses s ++ [total]) Hi Hlen)
    as (delta & b & divs & -> & -> & Hb).
  destruct b.
  - cbn [iter losses]. repeat split; eauto; apply Hb; auto.
  - assert (Hno : ~ criterion_at tol (losses s ++ [total])
                      (Z.to_nat (iter s)))
      by (intros Hc; apply Hb in Hc; discriminate).
    destruct (iter s =? max_iter)%Z.
    + cbn [iter losses]. repeat split; eauto; try discriminate;
        intros Hc; contradiction.
    + destruct (progress verbose (iter s) print_freq (as_sequence v) total).
      * unfold at_head. cbn [iter losses].
        repeat split; eauto; try lia;
          rewrite Hlen; lia.
      * cbn [iter losses]. split; [reflexivity|]. right. eauto.
Qed.

(** What a run says about the criterion, from any state at the head of
    the loop at which no earlier iteration met it: at every iteration with
    a recorded loss, the run stopped there with [converged] set if and only
    if the criterion holds there. *)
Lemma loop_criterion (fuel : nat) (s0 : state Store) (o : outcome Store) :
  at_head s0 ->
  (forall n, n < Z.to_nat (iter s0) -> ~ criterion_at tol (losses s0) n) ->
  loop_ fuel s0 = Some o ->
  (forall c s, o = Returned c s -> after_append s) /\
  forall n, n < length (losses (final_state o)) ->
    (converged_of o = true /\ iter (final_state o) = Z.of_nat n)
    <-> criterion_at tol (losses (final_state o)) n.
Proof.
  intros H0 Hbefore Hrun.
  pose (I := fun s : state Store =>
    at_head s /\
    forall n, n < Z.to_nat (iter s) -> ~ criterion_at tol (losses s) n).
  pose (P := fun o : outcome Store =>
    (forall c s, o = Returned c s -> after_append s) /\
    forall n, n < length (losses (final_state o)) ->
      (converged_of o = true /\ iter (final_state o) = Z.of_nat n)
      <-> criterion_at tol (losses (final_state o)) n).
  assert (Hold : forall s1 x n,
            I s1 -> n < Z.to_nat (iter s1) ->
            ~ criterion_at tol (losses s1 ++ [x]) n).
  { intros s1 x n [[Hpos Hlen] Hn] Hlt.
    rewrite criterion_at_app by lia. now apply Hn. }
  refine (loop_invariant I P _ _ _ fuel s0 o (conj H0 Hbefore) Hrun).
  - intros s1 s1' [Hh Hn] E. pose proof (body_criterion s1 Hh) as B.
    rewrite E in B. destruct B as (Hh' & Hi & [x Hx] & Hno).
    split; [exact Hh'|]. intros n Hlt.
    destruct (Nat.eq_dec n (Z.to_nat (iter s1))) as [->|Hne]; [exact Hno|].
    rewrite Hx. apply Hold; [now split|].
    destruct Hh as [Hpos _]. lia.
  - intros s1 c1 s1' [Hh Hn] E.
    pose proof (body_criterion s1 Hh) as B.
    rewrite E in B. destruct B as (Ha & Hi & [x Hx] & Hc).
    destruct (finish_after_append c1 s1' Ha) as (s2 & -> & Hsil & _).
    apply silent_fields in Hsil. destruct Hsil as (_ & HL & _ & HI & _).
    unfold P, after_append. cbn [final_state converged_of].
    rewrite HL, HI. split; [intros c2 s3 [= _ <-]; now rewrite HL, HI|].
    intros n Hlt. destruct Hh as [Hpos Hlen].
    destruct Ha as [_ Hlen'].
    destruct (Nat.eq_dec n (Z.to_nat (iter s1))) as [->|Hne].
    + rewrite <- Hc, Hi. split; [tauto|]. intros ->. split; [auto|lia].
    + split.
      * intros [_ Heq]. lia.
      * intros Hcrit. exfalso. rewrite Hx in Hcrit.
        apply (Hold s1 x n); [now split|lia|exact Hcrit].
  - intros s1 e s1' [Hh Hn] E.
    pose proof (body_criterion s1 Hh) as B.
    rewrite E in B. destruct B as (Hi & HL).
    split; [intros c s [=]|]. cbn [final_state converged_of].
    intros n Hlt. split; [intros [[=] _]|]. intros Hcrit. exfalso.
    destruct Hh as [Hpos Hlen].
    destruct HL as [HL|[[x Hx] Hno]].
    + rewrite HL in Hlt, Hcrit. apply (Hn n); [lia|exact Hcrit].
    + destruct (Nat.eq_dec n (Z.to_nat (iter s1))) as [->|Hne];
        [contradiction|].
      rewrite Hx in Hlt, Hcrit. rewrite length_app in Hlt. simpl in Hlt.
      apply (Hold s1 x n); [now split|lia|exact Hcrit].
Qed.

(** What one pass does to the state. *)
Lemma body_effects (s : state Store) :
  exists v store2,
    loss_function tensors (zero_grad parameters (store s)) = (v, store2) /\
    match body_ s with
    | Next s' =>
        exists total divs lines,
          reduce_add (as_sequence v) = Ok total /\
          quotient_events tol divs /\
          progress verbose (iter s) print_freq (as_sequence v) total
            = Ok lines /\
          iter s <> max_iter /\
          s' = {| store := adam_step parameters (backward store2);
                  losses := losses s ++ [total]; loss := as_sequence v;
                  iter := (iter s + 1)%Z;
                  trace := trace s ++ ZeroGrad :: LossEval v :: divs
                                   ++ [Backward; Step];
                  out := out s ++ lines |}
    | Stop c s' =>
        exists total divs,
          reduce_add (as_sequence v) = Ok total /\
          quotient_events tol divs /\
          (c = false -> iter s = max_iter) /\
          s' = {| store := store2;
                  losses := losses s ++ [total]; loss := as_sequence v;
                  iter := iter s;
                  trace := trace s ++ ZeroGrad :: LossEval v :: divs;
                  out := out s |}
    | Fail e s' =>
        exists divs,
          quotient_events tol divs /\
          iter s' = iter s /\ store s' = store2 /\
          trace s' = trace s ++ ZeroGrad :: LossEval v :: divs /\
          ((reduce_add (as_sequence v) = Raise e /\ losses s' = losses s) \/
           (exists total, reduce_add (as_sequence v) = Ok total /\
                          losses s' = losses s ++ [total]))
    end.
Proof.
  unfold body.
  destruct (loss_function tensors _) as [v store2].
  exists v, store2. split; [reflexivity|].
  destruct (reduce_add (as_sequence v)) as [total|e].
  2:{ exists []. cbn. repeat split; auto. now left. }
  destruct (delta_loss_of (losses s ++ [total])) as [delta|e].
  2:{ exists []. cbn. repeat split; eauto. now left. }
  destruct (stop_test (iter s) tol (losses s ++ [total]) delta)
    as [test divs] eqn:Htest.
  assert (Hq : quotient_events tol divs).
  { destruct (stop_test_divisions _ _ _ _ _ _ Htest)
      as [->|(t & l1 & -> & _ & Hle & ->)]; [now left|].
    right. now exists t, (t_neg delta), l1. }
  destruct test as [[|]|e].
  - exists total, divs. repeat split; auto; try discriminate.
    cbn. now rewrite <- app_assoc.
  - destruct (Z.eqb_spec (iter s) max_iter) as [E|E].
    + exists total, divs. repeat split; auto.
      cbn. now rewrite <- app_assoc.
    + destruct (progress verbose (iter s) print_freq (as_sequence v) total)
        as [lines|e] eqn:Hp.
      * exists total, divs, lines. repeat split; auto.
        f_equal. rewrite <- !app_assoc. reflexivity.
      * exists divs. cbn. repeat split; eauto. now rewrite <- app_assoc.
  - exists divs. cbn. repeat split; eauto. now rewrite <- app_assoc.
Qed.

(** The normalised loss of a pass is the sequence of the terms of what the
    loss function returned. *)
Lemma body_loss (s : state Store) :
  match body_ s with
  | Next s' | Stop _ s' | Fail _ s' =>
      loss s'
      = terms_of (fst (loss_function tensors
                                     (zero_grad parameters (store s))))
  end.
Proof.
  unfold body.
  destruct (loss_function tensors _) as [v store2]. cbn [fst].
  assert (E : as_sequence v = terms_of v) by now destruct v.
  destruct (reduce_add (as_sequence v)) as [total|e]; [|exact E].
  destruct (delta_loss_of _) as [delta|e]; [|exact E].
  destruct (stop_test _ _ _ _) as [[[|]|e] divs]; try exact E.
  destruct (_ =? _)%Z; [exact E|].
  destruct (progress _ _ _ _ _); exact E.
Qed.

(** [reduce] raises on the empty sequence only. *)
Lemma reduce_add_raises (xs : list float) (e : exn) :
  reduce_add xs = Raise e -> xs = [] /\ e = TypeError.
Proof.
  destruct xs; [intros [= <-]; auto|discriminate].
Qed.

(** Every loss evaluation of a run is recorded in the trace of losses, as
    the sum of its terms; only an evaluation whose [reduce] raised is not,
    and it is the last one, of no term.  The normalised loss is the
    sequence of the terms of the last evaluation. *)
Lemma loop_recorded (fuel : nat) (s0 : state Store) (o : outcome Store) :
  Forall2 recorded (loss_results (trace s0)) (losses s0) ->
  (forall before v, loss_results (trace s0) = before ++ [v] ->
     loss s0 = terms_of v) ->
  loop_ fuel s0 = Some o ->
  (exists vs extra,
     loss_results (trace (final_state o)) = vs ++ extra /\
     Forall2 recorded vs (losses (final_state o)) /\
     (extra = [] \/
      exists v, extra = [v] /\ terms_of v = [] /\
                o = Raised TypeError (final_state o))) /\
  (forall before v,
     loss_results (trace (final_state o)) = before ++ [v] ->
     loss (final_state o) = terms_of v) /\
  forall c s, o = Returned c s ->
    Forall2 recorded (loss_results (trace s)) (losses s).
Proof.
  intros H0 H0' Hrun.
  pose (I := fun s : state Store =>
    Forall2 recorded (loss_results (trace s)) (losses s) /\
    forall before v, loss_results (trace s) = before ++ [v] ->
      loss s = terms_of v).
  pose (P := fun o : outcome Store =>
    (exists vs extra,
       loss_results (trace (final_state o)) = vs ++ extra /\
       Forall2 recorded vs (losses (final_state o)) /\
       (extra = [] \/
        exists v, extra = [v] /\ terms_of v = [] /\
                  o = Raised TypeError (final_state o))) /\
    (forall before v,
       loss_results (trace (final_state o)) = before ++ [v] ->
       loss (final_state o) = terms_of v) /\
    forall c s, o = Returned c s ->
      Forall2 recorded (loss_results (trace s)) (losses s)).
  assert (Hterms : forall v, as_sequence v = terms_of v)
    by (intros v; now destruct v).
  assert (Hstep : forall s1 v total divs,
            I s1 -> quotient_events tol divs ->
            reduce_add (as_sequence v) = Ok total ->
            Forall2 recorded
              (loss_results (trace s1 ++ ZeroGrad :: LossEval v :: divs))
              (losses s1 ++ [total])).
  { intros s1 v total divs [H1 _] Hq Hred. rewrite loss_results_app.
    destruct (pass_events_stop tol v divs Hq) as (-> & _).
    apply Forall2_app; [exact H1|].
    constructor; [|constructor]. now apply reduce_add_recorded. }
  assert (Hlast : forall (tr : list event) v divs before v',
            quotient_events tol divs ->
            loss_results (tr ++ ZeroGrad :: LossEval v :: divs)
            = before ++ [v'] -> v' = v).
  { intros tr v divs before v' Hq. rewrite loss_results_app.
    destruct (pass_events_stop tol v divs Hq) as (-> & _).
    intros E. apply app_inj_tail in E. now destruct E. }
  refine (loop_invariant I P _ _ _ fuel s0 o (conj H0 H0') Hrun).
  - intros s1 s1' H1 E.
    destruct (body_effects s1) as (v & store2 & _ & B). rewrite E in B.
    destruct B as (total & divs & lines & Hred & Hq & _ & _ & ->).
    unfold I. cbn [trace losses loss]. rewrite loss_results_app.
    destruct (pass_events_next tol v divs Hq) as (-> & _). split.
    + apply Forall2_app; [apply H1|].
      constructor; [|constructor]. now apply reduce_add_recorded.
    + intros before v' E'. apply app_inj_tail in E'.
      destruct E' as [_ <-]. apply Hterms.
  - intros s1 c1 s1' H1 E.
    destruct (body_effects s1) as (v & store2 & _ & B). rewrite E in B.
    destruct B as (total & divs & Hred & Hq & _ & Es').
    destruct (silent_fields _ _ (finish_final_state c1 s1'))
      as (_ & HL & Hloss & _ & HT).
    assert (F : Forall2 recorded
                  (loss_results (trace (final_state (finish verbose c1 s1'))))
                  (losses (final_state (finish verbose c1 s1')))).
    { rewrite HL, HT, Es'. cbn [trace losses]. now apply Hstep. }
    split; [|split].
    + exists (loss_results (trace (final_state (finish verbose c1 s1')))), [].
      rewrite app_nil_r. auto.
    + rewrite HT, Hloss, Es'. cbn [trace loss]. intros before v' E'.
      apply Hlast in E'; [|exact Hq]. subst v'. apply Hterms.
    + intros c2 s2 Hfin. rewrite Hfin in F. exact F.
  - intros s1 e s1' H1 E.
    pose proof (body_loss s1) as BL. rewrite E in BL.
    destruct (body_effects s1) as (v & store2 & Hl & B). rewrite E in B.
    rewrite Hl in BL. cbn [fst] in BL.
    destruct B as (divs & Hq & _ & _ & HT & HL).
    unfold P. cbn [final_state]. rewrite HT.
    split; [|split]; [| |intros c2 s2 [=]].
    + destruct HL as [[Hred ->]|(total & Hred & ->)].
      * apply reduce_add_raises in Hred. destruct Hred as [Hnil ->].
        exists (loss_results (trace s1)), [v]. split; [|split].
        -- rewrite loss_results_app.
           now destruct (pass_events_stop tol v divs Hq) as (-> & _).
        -- apply H1.
        -- right. exists v. rewrite <- Hterms. auto.
      * exists (loss_results (trace s1 ++ ZeroGrad :: LossEval v :: divs)),
               [].
        rewrite app_nil_r. split; [reflexivity|]. split; [|now left].
        now apply Hstep.
    + intros before v' E'. apply Hlast in E'; [|exact Hq]. now subst v'.
Qed.

(** A finished run has evaluated the loss once more than it has stepped
    the optimizer, and has stepped it once per counted iteration. *)
Lemma loop_counts (fuel : nat) (s0 : state Store) (c : bool)
    (s : state Store) :
  (0 <= iter s0)%Z ->
  num_evals (trace s0) = Z.to_nat (iter s0) ->
  num_steps (trace s0) = Z.to_nat (iter s0) ->
  loop_ fuel s0 = Some (Returned c s) ->
  num_evals (trace s) = S (Z.to_nat (iter s)) /\
  num_steps (trace s) = Z.to_nat (iter s).
Proof.
  intros Hi He Hs Hrun.
  pose (I := fun s : state Store =>
    (0 <= iter s)%Z /\ num_evals (trace s) = Z.to_nat (iter s) /\
    num_steps (trace s) = Z.to_nat (iter s)).
  pose (P := fun o : outcome Store =>
    forall c s, o = Returned c s ->
      num_evals (trace s) = S (Z.to_nat (iter s)) /\
      num_steps (trace s) = Z.to_nat (iter s)).
  refine (loop_invariant I P _ _ _ fuel s0 _ (conj Hi (conj He Hs)) Hrun
                         c s eq_refl).
  - intros s1 s1' (H1 & H2 & H3) E.
    destruct (body_effects s1) as (v & store2 & _ & B). rewrite E in B.
    destruct B as (total & divs & lines & _ & Hq & _ & _ & ->).
    unfold I. cbn [trace iter]. rewrite num_evals_app, num_steps_app.
    destruct (pass_events_next tol v divs Hq) as (_ & _ & -> & ->). lia.
  - intros s1 c1 s1' (H1 & H2 & H3) E c2 s2 Hfin.
    apply finish_returned in Hfin. destruct Hfin as [_ Hsil].
    apply silent_fields in Hsil. destruct Hsil as (_ & _ & _ & HI & HT).
    rewrite HI, HT.
    destruct (body_effects s1) as (v & store2 & _ & B). rewrite E in B.
    destruct B as (total & divs & _ & Hq & _ & ->).
    cbn [trace iter]. rewrite num_evals_app, num_steps_app.
    destruct (pass_events_stop tol v divs Hq) as (_ & _ & -> & ->). lia.
  - intros s1 e s1' _ _ c1 s2 [=].
Qed.

(** The loop creates no optimizer. *)
Lemma loop_handed_over (fuel : nat) (s0 : state Store) (o : outcome Store) :
  loop_ fuel s0 = Some o ->
  handed_over (trace (final_state o)) = handed_over (trace s0).
Proof.
  intros Hrun.
  pose (I := fun s : state Store =>
    handed_over (trace s) = handed_over (trace s0)).
  pose (P := fun o : outcome Store => I (final_state o)).
  refine (loop_invariant I P _ _ _ fuel s0 o eq_refl Hrun).
  - intros s1 s1' H1 E.
    destruct (body_effects s1) as (v & store2 & _ & B). rewrite E in B.
    destruct B as (total & divs & lines & _ & Hq & _ & _ & ->).
    unfold I. cbn [trace]. rewrite handed_over_app.
    destruct (pass_events_next tol v divs Hq) as (_ & -> & _).
    now rewrite app_nil_r.
  - intros s1 c1 s1' H1 E.
    unfold P, I.
    destruct (silent_fields _ _ (finish_final_state c1 s1'))
      as (_ & _ & _ & _ & ->).
    destruct (body_effects s1) as (v & store2 & _ & B). rewrite E in B.
    destruct B as (total & divs & _ & Hq & _ & ->).
    cbn [trace]. rewrite handed_over_app.
    destruct (pass_events_stop tol v divs Hq) as (_ & -> & _).
    now rewrite app_nil_r.
  - intros s1 e s1' H1 E. unfold P, I. cbn [final_state].
    destruct (body_effects s1) as (v & store2 & _ & B). rewrite E in B.
    destruct B as (divs & Hq & _ & _ & -> & _).
    rewrite handed_over_app.
    change (ZeroGrad :: LossEval v :: divs)
      with ([ZeroGrad; LossEval v] ++ divs).
    rewrite handed_over_app.
    destruct (quotient_events_silent tol divs Hq) as (_ & -> & _).
    cbn. now rewrite app_nil_r.
Qed.

(** Under a tolerance that some number is below, every division of a run
    is guarded. *)
Lemma loop_guarded_divisions (t z0 : float) (fuel : nat) (s0 : state Store)
    (o : outcome Store) :
  tol = Some t -> t_le z0 (to_dtype t) = true ->
  Forall (guarded_division t) (trace s0) ->
  loop_ fuel s0 = Some o ->
  Forall (guarded_division t) (trace (final_state o)).
Proof.
  intros Htol Ht H0 Hrun.
  pose (I := fun s : state Store => Forall (guarded_division t) (trace s)).
  pose (P := fun o : outcome Store => I (final_state o)).
  assert (Hpass : forall v divs,
             quotient_events tol divs ->
             Forall (guarded_division t) (ZeroGrad :: LossEval v :: divs)).
  { intros v divs Hq. rewrite Htol in Hq.
    repeat (constructor; [exact Logic.I|]).
    now apply (quotient_events_guarded t z0). }
  refine (loop_invariant I P _ _ _ fuel s0 o H0 Hrun).
  - intros s1 s1' H1 E.
    destruct (body_effects s1) as (v & store2 & _ & B). rewrite E in B.
    destruct B as (total & divs & lines & _ & Hq & _ & _ & ->).
    unfold I. cbn [trace].
    change (ZeroGrad :: LossEval v :: divs ++ [Backward; Step])
      with ((ZeroGrad :: LossEval v :: divs) ++ [Backward; Step]).
    rewrite !Forall_app. repeat split; auto.
    repeat constructor.
  - intros s1 c1 s1' H1 E.
    unfold P, I.
    destruct (silent_fields _ _ (finish_final_state c1 s1'))
      as (_ & _ & _ & _ & ->).
    destruct (body_effects s1) as (v & store2 & _ & B). rewrite E in B.
    destruct B as (total & divs & _ & Hq & _ & ->).
    cbn [trace]. rewrite Forall_app. auto.
  - intros s1 e s1' H1 E. unfold P, I. cbn [final_state].
    destruct (body_effects s1) as (v & store2 & _ & B). rewrite E in B.
    destruct B as (divs & Hq & _ & _ & -> & _).
    rewrite Forall_app. auto.
Qed.

(** *** Runs that use up the budget *)

(** A pass that meets no error and does not converge falls through, or
    leaves at the budget. *)
Lemma body_continues (s : state Store) :
  at_head s ->
  verbose = false \/ print_freq <> 0%Z ->
  as_sequence (fst (loss_function tensors (zero_grad parameters (store s))))
    <> [] ->
  (forall c s', body_ s = Stop c s' -> c = false) ->
  if (iter s =? max_iter)%Z
  then exists s', body_ s = Stop false s' /\ after_append s' /\
                  iter s' = iter s
  else exists s', body_ s = Next s' /\ at_head s' /\
                  iter s' = (iter s + 1)%Z.
Proof.
  intros [Hi Hl] Hp Hne Hnc. revert Hne Hnc. unfold body.
  destruct (loss_function tensors _) as [v store2]. cbn [fst].
  intros Hne Hnc.
  destruct (as_sequence v) as [|x rest] eqn:Ev; [congruence|].
  cbn [reduce_add] in Hnc |- *. set (total := fold_left t_add rest x) in *.
  assert (Hlen : length (losses s ++ [total]) = S (Z.to_nat (iter s)))
    by (rewrite length_app; simpl; lia).
  destruct (stop_test_spec (iter s) tol (losses s ++ [total]) Hi Hlen)
    as (delta & b & divs & Hd & Ht & _).
  rewrite Hd, Ht in *.
  destruct b; [specialize (Hnc true _ eq_refl); discriminate|].
  destruct (iter s =? max_iter)%Z.
  - eexists. split; [reflexivity|]. split; [|reflexivity].
    split; assumption.
  - destruct (progress_prints verbose print_freq (iter s) (x :: rest)
                             total Hp) as [lines ->].
    eexists. split; [reflexivity|]. split; [|reflexivity].
    split; cbn [iter losses]; [lia|]. rewrite Hlen. lia.
Qed.

(** Without a tolerance no pass sets [converged]. *)
Lemma body_stop_without_tol (s : state Store) (c : bool) (s' : state Store) :
  tol = None -> at_head s -> body_ s = Stop c s' -> c = false.
Proof.
  intros Htol Hh Hb. pose proof (body_criterion s Hh) as B.
  rewrite Hb in B. destruct B as (_ & _ & _ & Hc).
  destruct c; [|reflexivity].
  destruct (proj1 Hc eq_refl) as (_ & t & Ht & _). congruence.
Qed.

Lemma body_next_at_head (s s' : state Store) :
  at_head s -> body_ s = Next s' -> at_head s'.
Proof.
  intros Hh Hb. pose proof (body_criterion s Hh) as B.
  rewrite Hb in B. apply B.
Qed.

(** The loop leaves at the budget when no pass fails or converges. *)
Lemma loop_budget (J : state Store -> Prop) :
  verbose = false \/ print_freq <> 0%Z ->
  (forall s, J s -> at_head s) ->
  (forall s, J s ->
     as_sequence (fst (loss_function tensors
                                     (zero_grad parameters (store s))))
     <> []) ->
  (forall s c s', J s -> body_ s = Stop c s' -> c = false) ->
  (forall s s', J s -> body_ s = Next s' -> J s') ->
  forall fuel s,
    J s -> (iter s <= max_iter)%Z ->
    Z.to_nat (max_iter - iter s) < fuel ->
    exists s1 s',
      J s1 /\ body_ s1 = Stop false s' /\
      loop_ fuel s = Some (finish verbose false s') /\
      after_append s' /\ iter s' = max_iter.
Proof.
  intros Hp Hhead Hne Hnc Hnext.
  induction fuel as [|fuel IH]; intros s Hs Hle Hfuel; [lia|].
  pose proof (body_continues s (Hhead s Hs) Hp (Hne s Hs)
                             (fun c s' => Hnc s c s' Hs)) as B.
  cbn [loop].
  destruct (Z.eqb_spec (iter s) max_iter) as [E|E].
  - destruct B as (s' & Hb & Ha & Hi). rewrite Hb.
    exists s, s'. repeat split; auto; try apply Ha. congruence.
  - destruct B as (s' & Hb & Ha & Hi). rewrite Hb.
    apply IH; [eapply Hnext; eauto| |]; lia.
Qed.

End LoopFacts.

(** ** The parameters *)

Section ParameterFacts.

Variable h : heap.

Lemma learnable_Us_filter (t : network) :
  learnable_Us h t = filter (learnable h) (present (Us t)).
Proof.
  unfold learnable_Us, present, learnable.
  induction (Us t) as [|[U|] us IH]; simpl; [reflexivity| |exact IH].
  destruct (requires_grad (h U)); simpl; now rewrite IH.
Qed.

(** The loop over the networks concatenates, network by network, the
    learnable cores and then the learnable factor matrices. *)
Lemma collect_parameters_flat (tensors : list network) :
  collect_parameters h tensors
  = flat_map (fun t => filter (learnable h) (cores t)
                       ++ filter (learnable h) (present (Us t))) tensors.
Proof.
  unfold collect_parameters.
  enough (G : forall acc,
             fold_left (fun parameters t =>
                          (parameters
                           ++ filter (fun c => requires_grad (h c)) (cores t))
                          ++ learnable_Us h t) tensors acc
             = acc ++ flat_map (fun t => filter (learnable h) (cores t)
                                         ++ filter (learnable h)
                                                   (present (Us t)))
                               tensors)
    by apply (G []).
  induction tensors as [|t ts IH]; intros acc; simpl.
  - now rewrite app_nil_r.
  - rewrite IH, learnable_Us_filter. now rewrite <- !app_assoc.
Qed.

Lemma count_occ_filter (f : ref -> bool) (l : list ref) (r : ref) :
  count_occ Nat.eq_dec (filter f l) r
  = if f r then count_occ Nat.eq_dec l r else 0.
Proof.
  induction l as [|x l IH]; simpl.
  - now destruct (f r).
  - destruct (f x) eqn:Ex; simpl; destruct (Nat.eq_dec x r) as [->|Hne];
      rewrite IH; destruct (f r); congruence.
Qed.

(** Nothing is dropped and nothing is merged: a learnable object is
    collected once per occurrence, a frozen one never. *)
Lemma collect_parameters_count (tensors : list network) (r : ref) :
  count_occ Nat.eq_dec (collect_parameters h tensors) r
  = if requires_grad (h r) then occurrences r tensors else 0.
Proof.
  rewrite collect_parameters_flat. unfold occurrences, list_sum.
  induction tensors as [|t ts IH]; cbn [flat_map map fold_right].
  - now destruct (requires_grad (h r)).
  - rewrite !count_occ_app. unfold ref in *.
    rewrite IH, !count_occ_filter. unfold learnable.
    destruct (requires_grad (h r)); lia.
Qed.

(** Without sharing, the collected parameters are pairwise distinct. *)
Lemma collect_parameters_NoDup (tensors : list network) :
  (forall r, occurrences r tensors <= 1) ->
  NoDup (collect_parameters h tensors).
Proof.
  intros Hocc. apply (NoDup_count_occ Nat.eq_dec). intros r.
  rewrite collect_parameters_count.
  destruct (requires_grad (h r)); [apply Hocc|lia].
Qed.

Lemma In_present (us : list (option ref)) (U : ref) :
  In U (present us) <-> In (Some U) us.
Proof.
  unfold present. rewrite in_flat_map. split.
  - intros ([V|] & Hin & HU); simpl in HU; [|contradiction].
    destruct HU as [->|[]]. exact Hin.
  - intros Hin. exists (Some U). simpl. auto.
Qed.

Lemma collect_parameters_frozen (tensors : list network) :
  all_frozen h tensors -> collect_parameters h tensors = [].
Proof.
  intros Hfrozen.
  destruct (collect_parameters h tensors) as [|r rest] eqn:E;
    [reflexivity|exfalso].
  assert (Hin : In r (collect_parameters h tensors))
    by (rewrite E; now left).
  rewrite collect_parameters_flat in Hin.
  apply in_flat_map in Hin. destruct Hin as (t & Ht & Hin).
  destruct (Hfrozen t Ht) as [Hc HU].
  apply in_app_or in Hin.
  destruct Hin as [Hin|Hin]; apply filter_In in Hin;
    destruct Hin as [Hin Hl]; unfold learnable in Hl.
  - rewrite (Hc r Hin) in Hl. discriminate.
  - apply In_present in Hin. rewrite (HU r Hin) in Hl. discriminate.
Qed.

End ParameterFacts.

(** ** [optimize] *)

Section OptimizeFacts.

Context {fmt : Format}.

Variable h : heap.
Variable Store : Type.
Variable loss_function : list network -> Store -> loss_value * Store.
Variable zero_grad : list ref -> Store -> Store.
Variable backward : Store -> Store.
Variable adam_step : list ref -> Store -> Store.

Local Notation "'optimize_'" :=
  (optimize h loss_function zero_grad backward adam_step).

(** A run that returns has made [iter + 1] appends. *)
Lemma optimize_trace_length
    (fuel : nat) (tensors : tensors_arg) (tol : option float)
    (max_iter print_freq : Z) (verbose : bool) (st : Store)
    (c : bool) (s : state Store) :
  optimize_ fuel tensors tol max_iter print_freq verbose st
    = Some (Returned c s) ->
  after_append s.
Proof.
  unfold optimize. destruct (_ =? 0); [discriminate|]. intros Hrun.
  apply loop_criterion in Hrun.
  - now apply (proj1 Hrun c).
  - split; [cbn; lia|reflexivity].
  - cbn. intros n Hn. lia.
Qed.

(** C1.  In every run of [optimize], for every iteration [n] whose loss
    was recorded, the loop set [converged] and stopped at [n] if and only
    if [n >= 2], a tolerance [t] was supplied, the loss of [n] is [<= t] or
    the quotient [-(loss_n - loss_{n-1}) / loss_n] is [<= t], and
    [loss_{n-1} - loss_n < loss_{n-2} - loss_{n-1}] with a strict [<].
    The differences, the quotient and the comparisons are those of the
    tensors: rounded to their format, false on NaN, and with the tolerance
    taken as a number of that format.  A run that returns has recorded the
    losses of the iterations 0..[iter]. *)
Theorem optimize_converged_iff_criterion
    (fuel : nat) (tensors : tensors_arg) (tol : option float)
    (max_iter print_freq : Z) (verbose : bool) (st : Store)
    (o : outcome Store) :
  optimize_ fuel tensors tol max_iter print_freq verbose st = Some o ->
  (forall c s, o = Returned c s ->
     length (losses s) = S (Z.to_nat (iter s))) /\
  forall n, n < length (losses (final_state o)) ->
    (converged_of o = true /\ iter (final_state o) = Z.of_nat n)
    <-> criterion_at tol (losses (final_state o)) n.
Proof.
  unfold optimize. destruct (_ =? 0).
  { intros [= <-]. split; [intros c s [=]|]. cbn. intros n Hn. lia. }
  intros Hrun. apply loop_criterion in Hrun.
  - destruct Hrun as [Hlen Hn]. split; [|exact Hn].
    intros c s Ho. now apply (Hlen c s Ho).
  - split; [cbn; lia|reflexivity].
  - cbn. intros n Hn. lia.
Qed.

(** C2.  When no core and no present factor matrix of the networks is
    learnable, [optimize] raises the error "no parameters to optimize", and
    at that point nothing has been done: no optimizer was created, the loss
    function was not evaluated and no pass of the loop was made. *)
Theorem optimize_no_parameters
    (fuel : nat) (tensors : tensors_arg) (tol : option float)
    (max_iter print_freq : Z) (verbose : bool) (st : Store) :
  all_frozen h (as_list tensors) ->
  exists s,
    optimize_ fuel tensors tol max_iter print_freq verbose st
      = Some (Raised ValueError s) /\
    trace s = [] /\ num_evals (trace s) = 0 /\ losses s = [] /\
    iter s = 0%Z /\ store s = st.
Proof.
  intros Hfrozen. unfold optimize.
  rewrite (collect_parameters_frozen h _ Hfrozen). cbn.
  eexists. split; [reflexivity|]. cbn. auto.
Qed.

(** C5.  With [tol=None] a run never sets [converged], and when it
    returns, the iteration counter has reached [max_iter]. *)
Theorem optimize_without_tol
    (fuel : nat) (tensors : tensors_arg)
    (max_iter print_freq : Z) (verbose : bool) (st : Store)
    (o : outcome Store) :
  optimize_ fuel tensors None max_iter print_freq verbose st = Some o ->
  converged_of o = false /\
  forall c s, o = Returned c s -> iter s = max_iter.
Proof.
  unfold optimize. destruct (_ =? 0).
  { intros [= <-]. split; [reflexivity|]. intros c s [=]. }
  pose (P := fun o : outcome Store =>
    converged_of o = false /\
    forall c s, o = Returned c s -> iter s = max_iter).
  apply (loop_invariant _ loss_function zero_grad backward adam_step
           (as_list tensors) (collect_parameters h (as_list tensors))
           None max_iter print_freq verbose (@at_head Store) P).
  - intros s1 s1' H1 E.
    pose proof (body_criterion _ loss_function zero_grad backward adam_step
                  (as_list tensors) (collect_parameters h (as_list tensors))
                  None max_iter print_freq verbose s1 H1) as B.
    rewrite E in B. apply B.
  - intros s1 c1 s1' H1 E.
    pose proof (body_criterion _ loss_function zero_grad backward adam_step
                  (as_list tensors) (collect_parameters h (as_list tensors))
                  None max_iter print_freq verbose s1 H1) as B.
    rewrite E in B. destruct B as (_ & Hi & _ & Hc).
    assert (Hc1 : c1 = false).
    { destruct c1; [|reflexivity].
      destruct (proj1 Hc eq_refl) as (_ & t & [=] & _). }
    destruct (body_effects _ loss_function zero_grad backward adam_step
                (as_list tensors) (collect_parameters h (as_list tensors))
                None max_iter print_freq verbose s1)
      as (v & store2 & _ & B).
    rewrite E in B. destruct B as (total & divs & _ & _ & Hmax & _).
    unfold P. split.
    + destruct (finish verbose c1 s1') as [c2 s2|e s2] eqn:F;
        [|reflexivity].
      apply finish_returned in F. cbn. destruct F as [-> _]. exact Hc1.
    + intros c2 s2 F. apply finish_returned in F. destruct F as [_ Hsil].
      apply silent_fields in Hsil. destruct Hsil as (_ & _ & _ & -> & _).
      rewrite Hi. auto.
  - intros s1 e s1' _ _. split; [reflexivity|]. intros c s [=].
  - split; [cbn; lia|reflexivity].
Qed.

(** C6.  In every run the loss trace holds, in order, one value per loss
    evaluation: a result that is not a sequence is normalised into the
    sequence of that one term and recorded as itself, a sequence is recorded
    by the sum of its terms, added in the arithmetic of the tensors, and a
    pair [(a, b)] by [a + b].  The one evaluation that can go unrecorded is
    the last one of a run that raised [TypeError] on a sequence of no term;
    never that of a result that is not a sequence.  In a run that returns,
    every evaluation is recorded, one per iteration 0..[iter]. *)
Theorem optimize_records_sum
    (fuel : nat) (tensors : tensors_arg) (tol : option float)
    (max_iter print_freq : Z) (verbose : bool) (st : Store)
    (o : outcome Store) :
  optimize_ fuel tensors tol max_iter print_freq verbose st = Some o ->
  (exists vs extra,
     loss_results (trace (final_state o)) = vs ++ extra /\
     Forall2 recorded vs (losses (final_state o)) /\
     (extra = [] \/
      exists v, extra = [v] /\ terms_of v = [] /\
                o = Raised TypeError (final_state o))) /\
  (forall before v,
     loss_results (trace (final_state o)) = before ++ [v] ->
     loss (final_state o) = terms_of v) /\
  forall c s, o = Returned c s ->
    length (losses s) = S (Z.to_nat (iter s)) /\
    Forall2 recorded (loss_results (trace s)) (losses s).
Proof.
  intros Hrun.
  assert (G : (exists vs extra,
                 loss_results (trace (final_state o)) = vs ++ extra /\
                 Forall2 recorded vs (losses (final_state o)) /\
                 (extra = [] \/
                  exists v, extra = [v] /\ terms_of v = [] /\
                            o = Raised TypeError (final_state o))) /\
              (forall before v,
                 loss_results (trace (final_state o)) = before ++ [v] ->
                 loss (final_state o) = terms_of v) /\
              forall c s, o = Returned c s ->
                Forall2 recorded (loss_results (trace s)) (losses s)).
  { revert Hrun. unfold optimize. destruct (_ =? 0).
    - intros [= <-]. cbn. split; [|split].
      + exists [], []. split; [reflexivity|]. split; [constructor|auto].
      + intros [|x before] v; discriminate.
      + intros c s [=].
    - apply loop_recorded; cbn; [constructor|].
      intros [|x before] v; discriminate. }
  destruct G as (G1 & G2 & G3). split; [exact G1|]. split; [exact G2|].
  intros c s ->. split; [|now apply (G3 c)].
  apply (optimize_trace_length _ _ _ _ _ _ _ _ _ Hrun).
Qed.

(** What a run hands to the optimizer is the collected list, once. *)
Lemma optimize_handed_over
    (fuel : nat) (tensors : tensors_arg) (tol : option float)
    (max_iter print_freq : Z) (verbose : bool) (st : Store)
    (o : outcome Store) (ps : list ref) :
  optimize_ fuel tensors tol max_iter print_freq verbose st = Some o ->
  In ps (handed_over (trace (final_state o))) ->
  ps = collect_parameters h (as_list tensors).
Proof.
  unfold optimize. destruct (_ =? 0).
  - intros [= <-] [].
  - intros Hrun. apply loop_handed_over in Hrun. rewrite Hrun. cbn.
    intros [<-|[]]. reflexivity.
Qed.

(** C7, as the code has it.  The list handed to the optimizer holds a
    learnable core or factor matrix once per occurrence among the cores and
    present factor matrices of the supplied networks, and no other object;
    nothing is merged.  It is free of duplicates when no object occurs more
    than once across the supplied networks. *)
Theorem optimize_parameters_per_occurrence
    (fuel : nat) (tensors : tensors_arg) (tol : option float)
    (max_iter print_freq : Z) (verbose : bool) (st : Store)
    (o : outcome Store) (ps : list ref) :
  optimize_ fuel tensors tol max_iter print_freq verbose st = Some o ->
  In ps (handed_over (trace (final_state o))) ->
  (forall r,
     count_occ Nat.eq_dec ps r
     = if requires_grad (h r) then occurrences r (as_list tensors) else 0) /\
  ((forall r, occurrences r (as_list tensors) <= 1) -> NoDup ps).
Proof.
  intros Hrun Hin.
  rewrite (optimize_handed_over _ _ _ _ _ _ _ _ _ Hrun Hin).
  split.
  - intros r. apply collect_parameters_count.
  - apply collect_parameters_NoDup.
Qed.

(** C9.  Calling [optimize] with a single network that is not a list or
    tuple is calling it with the list of that one network: the same
    parameters, loss evaluations, stopping decisions, updates and
    console, whatever the other arguments. *)
Theorem optimize_single_is_singleton
    (fuel : nat) (t : network) (tol : option float)
    (max_iter print_freq : Z) (verbose : bool) (st : Store) :
  optimize_ fuel (Single t) tol max_iter print_freq verbose st
  = optimize_ fuel (Many [t]) tol max_iter print_freq verbose st.
Proof.
  unfold optimize. cbn [as_list]. reflexivity.
Qed.

(** C10, as the code has it.  Under a tolerance [t >= 0], every quotient
    [-delta_loss / losses[-1]] that a run evaluates has a denominator for
    which [losses[-1] <= tol] was false: a loss strictly above the
    tolerance, or NaN.  It is no number at or below the tolerance, so it is
    not zero, of either sign. *)
Theorem optimize_division_safe
    (fuel : nat) (tensors : tensors_arg) (t : float)
    (max_iter print_freq : Z) (verbose : bool) (st : Store)
    (o : outcome Store) :
  t_le (S754_zero false) t = true ->
  optimize_ fuel tensors (Some t) max_iter print_freq verbose st = Some o ->
  Forall (guarded_division t) (trace (final_state o)) /\
  forall num den sign,
    In (Divide num den) (trace (final_state o)) -> den <> S754_zero sign.
Proof.
  intros Ht Hrun. apply to_dtype_nonneg in Ht.
  assert (G : Forall (guarded_division t) (trace (final_state o))).
  { revert Hrun. unfold optimize. destruct (_ =? 0).
    - intros [= <-]. constructor.
    - apply (loop_guarded_divisions _ _ _ _ _ _ _ _ _ _ _ t
               (S754_zero false)); auto.
      cbn. constructor; [exact I|constructor]. }
  split; [exact G|]. intros num den sign Hin.
  apply (proj1 (Forall_forall _ _) G) in Hin.
  destruct Hin as (_ & _ & Hz). apply Hz.
  now rewrite t_le_zero_sign.
Qed.

(** *** Constant losses *)

(** On a flat trace the improvement never decelerates strictly. *)
Lemma constant_not_criterion (c : float) (tol : option float) (L : list float) (n : nat) :
  Forall (eq c) L -> n < length L -> ~ criterion_at tol L n.
Proof.
  intros HF Hn (_ & t & _ & _ & Hlt).
  assert (E : forall k, k <= n -> loss_at L k = c).
  { intros k Hk. unfold loss_at. symmetry.
    apply (proj1 (Forall_nth (eq c) L)); [exact HF|lia]. }
  rewrite !E in Hlt by lia.
  rewrite t_lt_irrefl in Hlt. discriminate.
Qed.

(** C4.  Let the loss function return the same value [c] at every
    evaluation (whatever [c] and the tolerance are, so in particular for a
    non-zero [c] above the tolerance).  In a call with parameters to
    optimize, [max_iter >= 0] and a print frequency other than 0 when
    verbose, [optimize] never sets [converged]: it returns after the pass
    of iteration [max_iter], having evaluated the loss [max_iter + 1] times
    and stepped the optimizer [max_iter] times, and when verbose its last
    line reports iteration [max_iter] as not converged. *)
Theorem optimize_constant_loss
    (c : float) (fuel : nat) (tensors : tensors_arg) (tol : option float)
    (max_iter print_freq : Z) (verbose : bool) (st : Store) :
  collect_parameters h (as_list tensors) <> [] ->
  (forall st', fst (loss_function (as_list tensors) st') = Scalar c) ->
  (0 <= max_iter)%Z ->
  verbose = false \/ print_freq <> 0%Z ->
  Z.to_nat max_iter < fuel ->
  exists s,
    optimize_ fuel tensors tol max_iter print_freq verbose st
      = Some (Returned false s) /\
    iter s = max_iter /\
    losses s = repeat c (S (Z.to_nat max_iter)) /\
    num_evals (trace s) = S (Z.to_nat max_iter) /\
    num_steps (trace s) = Z.to_nat max_iter /\
    (verbose = true ->
     exists lines, out s = lines ++ [Final max_iter [c] None false]).
Proof.
  intros Hparams Hconst Hmax Hp Hfuel. unfold optimize.
  set (ts := as_list tensors) in *.
  set (ps := collect_parameters h ts) in *.
  destruct (Nat.eqb_spec (length ps) 0) as [E|_];
    [destruct ps; [congruence|discriminate]|].
  set (s0 := {| store := st; losses := []; loss := []; iter := 0%Z;
                trace := [AdamInit ps]; out := [] |}).
  pose (J := fun s : state Store => at_head s /\ Forall (eq c) (losses s)).
  assert (Hpass : forall s v store2 total,
             loss_function ts (zero_grad ps (store s)) = (v, store2) ->
             reduce_add (as_sequence v) = Ok total ->
             v = Scalar c /\ total = c).
  { intros s v store2 total Hl Hr.
    pose proof (Hconst (zero_grad ps (store s))) as Hv.
    rewrite Hl in Hv. cbn in Hv. subst v. cbn in Hr.
    injection Hr as <-. auto. }
  assert (HJnc : forall s c0 s',
             J s ->
             body loss_function zero_grad backward adam_step ts ps tol
                  max_iter print_freq verbose s = Stop c0 s' ->
             c0 = false).
  { intros s c0 s' [Hh HF] Hb.
    pose proof (body_criterion _ loss_function zero_grad backward adam_step
                  ts ps tol max_iter print_freq verbose s Hh) as B.
    destruct (body_effects _ loss_function zero_grad backward adam_step
                ts ps tol max_iter print_freq verbose s)
      as (v & store2 & Hl & B').
    rewrite Hb in B, B'.
    destruct B as ([_ Hlen] & _ & _ & Hc).
    destruct B' as (total & divs & Hr & _ & _ & ->).
    destruct (Hpass s v store2 total Hl Hr) as [_ ->].
    destruct c0; [exfalso|reflexivity].
    cbn [losses iter] in Hc, Hlen.
    apply (constant_not_criterion c tol (losses s ++ [c])
                                  (Z.to_nat (iter s))).
    - apply Forall_app. split; [exact HF|]. now constructor.
    - lia.
    - now apply Hc. }
  assert (HJnext : forall s s',
             J s ->
             body loss_function zero_grad backward adam_step ts ps tol
                  max_iter print_freq verbose s = Next s' ->
             J s').
  { intros s s' [Hh HF] Hb.
    pose proof (body_criterion _ loss_function zero_grad backward adam_step
                  ts ps tol max_iter print_freq verbose s Hh) as B.
    destruct (body_effects _ loss_function zero_grad backward adam_step
                ts ps tol max_iter print_freq verbose s)
      as (v & store2 & Hl & B').
    rewrite Hb in B, B'.
    destruct B as (Hh' & _).
    destruct B' as (total & divs & lines & Hr & _ & _ & _ & ->).
    destruct (Hpass s v store2 total Hl Hr) as [_ ->].
    split; [exact Hh'|]. cbn [losses].
    apply Forall_app. split; [exact HF|]. now constructor. }
  assert (HJne : forall s, J s ->
             as_sequence (fst (loss_function ts (zero_grad ps (store s))))
             <> []).
  { intros s _. rewrite Hconst. discriminate. }
  assert (J0 : J s0) by (repeat split; cbn; auto; lia).
  destruct (loop_budget _ loss_function zero_grad backward adam_step
              ts ps tol max_iter print_freq verbose J Hp
              (fun s Hs => proj1 Hs) HJne HJnc HJnext fuel s0 J0)
    as (s1 & s' & [Hh1 HF1] & Hb & Hrun & Ha & Hi).
  { cbn. exact Hmax. }
  { cbn. rewrite Z.sub_0_r. exact Hfuel. }
  destruct (finish_after_append _ verbose false s' Ha)
    as (s2 & Hfin & Hsil & Hout).
  rewrite Hfin in Hrun. exists s2. split; [exact Hrun|].
  assert (H0 : (0 <= iter s0)%Z) by (cbn; lia).
  destruct (loop_counts _ loss_function zero_grad backward adam_step
              ts ps tol max_iter print_freq verbose fuel s0 false s2
              H0 eq_refl eq_refl Hrun)
    as [He Hs].
  apply silent_fields in Hsil.
  destruct Hsil as (_ & HL & Hloss & HI & _).
  rewrite Hi in HI. rewrite HI in He, Hs.
  destruct (body_effects _ loss_function zero_grad backward adam_step
              ts ps tol max_iter print_freq verbose s1)
    as (v & store2 & Hl & B').
  rewrite Hb in B'. destruct B' as (total & divs & Hr & _ & _ & Es').
  destruct (Hpass s1 v store2 total Hl Hr) as [-> ->].
  repeat split; auto.
  - rewrite HL. destruct Ha as [_ Hlen]. rewrite Hi in Hlen.
    rewrite <- Hlen. apply Forall_eq_repeat.
    rewrite Es'. cbn [losses].
    apply Forall_app. split; [exact HF1|]. now constructor.
  - intros Hv. exists (out s'). rewrite (Hout Hv), Hi.
    rewrite Es'. reflexivity.
Qed.

(** Without a tolerance a well-formed call does return, at the budget. *)
Lemma run_without_tol_reaches_budget
    (fuel : nat) (tensors : tensors_arg)
    (max_iter print_freq : Z) (verbose : bool) (st : Store) :
  collect_parameters h (as_list tensors) <> [] ->
  (forall st',
     as_sequence (fst (loss_function (as_list tensors) st')) <> []) ->
  (0 <= max_iter)%Z ->
  verbose = false \/ print_freq <> 0%Z ->
  Z.to_nat max_iter < fuel ->
  exists s,
    optimize_ fuel tensors None max_iter print_freq verbose st
      = Some (Returned false s) /\
    iter s = max_iter.
Proof.
  intros Hparams Hne Hmax Hp Hfuel. unfold optimize.
  set (ts := as_list tensors) in *.
  set (ps := collect_parameters h ts) in *.
  destruct (Nat.eqb_spec (length ps) 0) as [E|_];
    [destruct ps; [congruence|discriminate]|].
  set (s0 := {| store := st; losses := []; loss := []; iter := 0%Z;
                trace := [AdamInit ps]; out := [] |}).
  pose proof (fun s c0 s' =>
                body_stop_without_tol _ loss_function zero_grad backward
                  adam_step ts ps None max_iter print_freq verbose
                  s c0 s' eq_refl) as Hnc.
  pose proof (body_next_at_head _ loss_function zero_grad backward
                adam_step ts ps None max_iter print_freq verbose) as Hnext.
  assert (H0 : at_head s0) by (split; cbn; [lia|reflexivity]).
  destruct (loop_budget _ loss_function zero_grad backward adam_step
              ts ps None max_iter print_freq verbose (@at_head Store) Hp
              (fun s Hs => Hs) (fun s _ => Hne _) Hnc Hnext fuel s0 H0)
    as (s1 & s' & _ & _ & Hrun & Ha & Hi).
  { cbn. exact Hmax. }
  { cbn. rewrite Z.sub_0_r. exact Hfuel. }
  destruct (finish_after_append _ verbose false s' Ha)
    as (s2 & Hfin & Hsil & _).
  rewrite Hfin in Hrun. exists s2. split; [exact Hrun|].
  apply silent_fields in Hsil. destruct Hsil as (_ & _ & _ & -> & _).
  exact Hi.
Qed.

(** A negative [max_iter] is never reached: without a tolerance the loop
    does not end, whatever the bound on the number of passes. *)
Lemma optimize_negative_budget
    (fuel : nat) (tensors : tensors_arg)
    (max_iter print_freq : Z) (verbose : bool) (st : Store) :
  collect_parameters h (as_list tensors) <> [] ->
  (forall st',
     as_sequence (fst (loss_function (as_list tensors) st')) <> []) ->
  (max_iter < 0)%Z ->
  verbose = false \/ print_freq <> 0%Z ->
  optimize_ fuel tensors None max_iter print_freq verbose st = None.
Proof.
  intros Hparams Hne Hmax Hp. unfold optimize.
  set (ts := as_list tensors) in *.
  set (ps := collect_parameters h ts) in *.
  destruct (Nat.eqb_spec (length ps) 0) as [E|_];
    [destruct ps; [congruence|discriminate]|].
  enough (G : forall s, at_head s ->
             loop loss_function zero_grad backward adam_step ts ps None
                  max_iter print_freq verbose fuel s = None)
    by (apply G; split; cbn; [lia|reflexivity]).
  induction fuel as [|fuel IH]; intros s Hh; [reflexivity|].
  cbn [loop].
  pose proof (body_continues _ loss_function zero_grad backward adam_step
                ts ps None max_iter print_freq verbose s Hh Hp (Hne _)
                (fun c s' =>
                   body_stop_without_tol _ loss_function zero_grad backward
                     adam_step ts ps None max_iter print_freq verbose
                     s c s' eq_refl Hh)) as B.
  destruct (Z.eqb_spec (iter s) max_iter) as [E|E];
    [destruct Hh; lia|].
  destruct B as (s' & -> & Hh' & _). now apply IH.
Qed.

End OptimizeFacts.

(** ** Printing *)

Section PrintingFacts.

Context {fmt : Format}.

Variable h : heap.
Variable Store : Type.
Variable loss_function : list network -> Store -> loss_value * Store.
Variable zero_grad : list ref -> Store -> Store.
Variable backward : Store -> Store.
Variable adam_step : list ref -> Store -> Store.
Variable tensors : list network.
Variable parameters : list ref.
Variable tol : option float.
Variable max_iter : Z.

(** Two settings of the reporting arguments. *)
Variable print_freq1 print_freq2 : Z.
Variable verbose1 verbose2 : bool.

Hypothesis printable1 : verbose1 = false \/ print_freq1 <> 0%Z.
Hypothesis printable2 : verbose2 = false \/ print_freq2 <> 0%Z.

Local Notation "'body1'" :=
  (body loss_function zero_grad backward adam_step
        tensors parameters tol max_iter print_freq1 verbose1).
Local Notation "'body2'" :=
  (body loss_function zero_grad backward adam_step
        tensors parameters tol max_iter print_freq2 verbose2).

(** One pass under the two settings, from states that agree up to the
    console: the same way out, to states that agree up to the console. *)
Lemma body_observational (s1 s2 : state Store) :
  silent s1 = silent s2 ->
  match body1 s1, body2 s2 with
  | Next a, Next b => silent a = silent b
  | Stop c a, Stop c' b => c = c' /\ silent a = silent b /\ losses a <> []
  | Fail e a, Fail e' b => e = e' /\ silent a = silent b
  | _, _ => False
  end.
Proof.
  intros Hsil. symmetry in Hsil. apply silent_fields in Hsil.
  destruct Hsil as (E1 & E2 & E3 & E4 & E5).
  unfold body. rewrite E1, E2, E4, E5.
  destruct (loss_function tensors _) as [v store2].
  destruct (reduce_add (as_sequence v)) as [total|e]; [|now split].
  destruct (delta_loss_of (losses s1 ++ [total])) as [delta|e];
    [|now split].
  destruct (stop_test (iter s1) tol (losses s1 ++ [total]) delta)
    as [[[|]|e] divs]; [| |now split].
  - repeat split. cbn. now destruct (losses s1).
  - destruct (iter s1 =? max_iter)%Z.
    + repeat split. cbn. now destruct (losses s1).
    + destruct (progress_prints verbose1 print_freq1 (iter s1)
                  (as_sequence v) total printable1) as [l1 ->].
      destruct (progress_prints verbose2 print_freq2 (iter s1)
                  (as_sequence v) total printable2) as [l2 ->].
      reflexivity.
Qed.

Lemma finish_observe (verbose c : bool) (s : state Store) :
  losses s <> [] -> observe (finish verbose c s) = Returned c (silent s).
Proof.
  intros Hne. unfold finish.
  rewrite (neg_index_nth float (losses s) 1 nan)
    by (destruct (losses s); [congruence|simpl; lia]).
  destruct verbose; [|reflexivity].
  destruct (1 <? length (loss s))%nat; reflexivity.
Qed.

Lemma loop_observational (fuel : nat) :
  forall s1 s2 : state Store,
    silent s1 = silent s2 ->
    option_map observe
      (loop loss_function zero_grad backward adam_step
            tensors parameters tol max_iter print_freq1 verbose1 fuel s1)
    = option_map observe
        (loop loss_function zero_grad backward adam_step
              tensors parameters tol max_iter print_freq2 verbose2 fuel s2).
Proof.
  induction fuel as [|fuel IH]; intros s1 s2 Hsil; [reflexivity|].
  cbn [loop]. pose proof (body_observational s1 s2 Hsil) as B.
  destruct (body1 s1) as [a|c a|e a], (body2 s2) as [b|c' b|e' b];
    try contradiction.
  - now apply IH.
  - destruct B as (<- & Hab & Hne). cbn [option_map].
    rewrite !finish_observe; try congruence.
    apply silent_fields in Hab. destruct Hab as (_ & <- & _). exact Hne.
  - destruct B as (<- & Hab). cbn. now rewrite Hab.
Qed.

End PrintingFacts.

(** C8, as the code has it.  Two calls of [optimize] that differ only in
    [verbose] and [print_freq], neither of them verbose with a print
    frequency of 0, end alike up to the console: the same loss trace, the
    same [converged], the same iteration count, the same calls to the loss
    function and the optimizer with the same final parameters, and the same
    exception if one is raised. *)
Theorem optimize_printing_observational
    {fmt : Format} (h : heap) (Store : Type)
    (loss_function : list network -> Store -> loss_value * Store)
    (zero_grad : list ref -> Store -> Store) (backward : Store -> Store)
    (adam_step : list ref -> Store -> Store)
    (fuel : nat) (tensors : tensors_arg) (tol : option float) (max_iter : Z)
    (print_freq1 print_freq2 : Z) (verbose1 verbose2 : bool) (st : Store) :
  verbose1 = false \/ print_freq1 <> 0%Z ->
  verbose2 = false \/ print_freq2 <> 0%Z ->
  option_map observe
    (optimize h loss_function zero_grad backward adam_step
              fuel tensors tol max_iter print_freq1 verbose1 st)
  = option_map observe
      (optimize h loss_function zero_grad backward adam_step
                fuel tensors tol max_iter print_freq2 verbose2 st).
Proof.
  intros H1 H2. unfold optimize.
  destruct (_ =? 0); [reflexivity|].
  now apply loop_observational.
Qed.

(** ** The instance, run *)

Lemma optimize_converged_iff_criterion_witness :
  exists s,
    Demo.run Demo.square_loss 10 (Single Demo.demo_net) (Some Demo.tenth)
             5 2 true = Some (Returned true s) /\
    iter s = 2%Z /\
    criterion_at (fmt := Demo.float32) (Some Demo.tenth) (losses s) 2.
Proof.
  eexists. split; [vm_compute; reflexivity|]. split; [reflexivity|].
  refine (proj1 (proj2 (optimize_converged_iff_criterion
                          (fmt := Demo.float32)
                          Demo.demo_heap float Demo.square_loss Demo.keep
                          (fun x => x) Demo.halve
                          10 (Single Demo.demo_net) (Some Demo.tenth)
                          5 2 true (Demo.f32 1 0) (Returned true _) _) 2 _)
                _).
  - vm_compute. reflexivity.
  - cbn. lia.
  - split; reflexivity.
Defined.

(** The tolerance is compared in the format of the tensors.  The float32
    nearest to 0.1 is above the Python float 0.1, and it is what [tol = 0.1]
    becomes in a comparison with a float32 loss: a run whose losses are 4, 2
    and float32(0.1) converges at iteration 2. *)
Lemma tolerance_is_rounded_to_dtype :
  exists s,
    Demo.run Demo.stepped_loss 10 (Single Demo.demo_net) (Some Demo.tenth)
             2 1 false = Some (Returned true s) /\
    iter s = 2%Z /\
    loss_at (losses s) 2 = Demo.f32 13421773 (-27) /\
    t_le (Demo.py 13421773 (-27)) Demo.tenth = false /\
    to_dtype (fmt := Demo.float32) Demo.tenth = Demo.f32 13421773 (-27).
Proof.
  eexists. split; [vm_compute; reflexivity|]. repeat split.
Qed.

Lemma optimize_no_parameters_witness :
  all_frozen Demo.demo_heap (as_list (Single Demo.frozen_net)) /\
  exists s,
    Demo.run Demo.square_loss 0 (Single Demo.frozen_net) (Some Demo.tenth)
             5 2 true = Some (Raised ValueError s) /\
    trace s = [].
Proof.
  assert (Hfrozen : all_frozen Demo.demo_heap
                               (as_list (Single Demo.frozen_net))).
  { intros t [<-|[]]. split.
    - intros c [<-|[]]. reflexivity.
    - intros U [[=]|[]]. }
  split; [exact Hfrozen|].
  destruct (optimize_no_parameters (fmt := Demo.float32)
              Demo.demo_heap float Demo.square_loss Demo.keep (fun x => x)
              Demo.halve 0 (Single Demo.frozen_net) (Some Demo.tenth)
              5 2 true (Demo.f32 1 0) Hfrozen) as (s & Hrun & Htrace & _).
  exists s. split; [exact Hrun|exact Htrace].
Defined.

Lemma optimize_constant_loss_witness :
  exists s,
    Demo.run (Demo.constant_loss (Demo.f32 3 0)) 4 (Single Demo.demo_net)
             (Some (Demo.py 1 0)) 3 1 true = Some (Returned false s) /\
    iter s = 3%Z /\ num_evals (trace s) = 4 /\ num_steps (trace s) = 3.
Proof.
  destruct (optimize_constant_loss (fmt := Demo.float32)
              Demo.demo_heap float (Demo.constant_loss (Demo.f32 3 0))
              Demo.keep (fun x => x) Demo.halve (Demo.f32 3 0) 4
              (Single Demo.demo_net) (Some (Demo.py 1 0)) 3 1 true
              (Demo.f32 1 0)) as (s & Hrun & Hi & _ & He & Hs & _).
  - vm_compute. discriminate.
  - reflexivity.
  - lia.
  - right. lia.
  - simpl. lia.
  - exists s. repeat split; assumption.
Defined.

Lemma optimize_without_tol_witness :
  exists o,
    Demo.run Demo.pair_loss 10 (Many [Demo.demo_net; Demo.demo_net]) None
             3 1 true = Some o /\
    converged_of o = false /\ iter (final_state o) = 3%Z.
Proof.
  eexists. split; [vm_compute; reflexivity|].
  split.
  - refine (proj1 (optimize_without_tol (fmt := Demo.float32)
                     Demo.demo_heap float Demo.pair_loss Demo.keep
                     (fun x => x) Demo.halve 10
                     (Many [Demo.demo_net; Demo.demo_net])
                     3 1 true (Demo.f32 1 0) _ _)).
    vm_compute. reflexivity.
  - reflexivity.
Defined.

(** A scalar loss is normalised and recorded as itself; of the pair
    (16777216, 1) the float32 sum is recorded, which is 16777216. *)
Lemma optimize_records_sum_witness :
  (exists s,
     Demo.run Demo.square_loss 10 (Single Demo.demo_net) None 0 1 false
       = Some (Returned false s) /\
     loss_results (trace s) = [Scalar (Demo.f32 1 0)] /\
     loss s = [Demo.f32 1 0] /\ losses s = [Demo.f32 1 0] /\
     Forall2 (recorded (fmt := Demo.float32))
             (loss_results (trace s)) (losses s)) /\
  (exists s,
     Demo.run Demo.wide_pair_loss 10 (Single Demo.demo_net) None 1 1 false
       = Some (Returned false s) /\
     losses s = [Demo.f32 16777216 0; Demo.f32 16777216 0] /\
     Forall2 (recorded (fmt := Demo.float32))
             (loss_results (trace s)) (losses s)).
Proof.
  split.
  - eexists. split; [vm_compute; reflexivity|].
    split; [reflexivity|].
    pose proof (optimize_records_sum (fmt := Demo.float32)
                  Demo.demo_heap float Demo.square_loss Demo.keep
                  (fun x => x) Demo.halve
                  10 (Single Demo.demo_net) None 0 1 false (Demo.f32 1 0)
                  (Returned false _) ltac:(vm_compute; reflexivity))
      as (_ & Hloss & Hret).
    split; [exact (Hloss [] (Scalar (Demo.f32 1 0)) eq_refl)|].
    split; [reflexivity|].
    exact (proj2 (Hret false _ eq_refl)).
  - eexists. split; [vm_compute; reflexivity|]. split; [reflexivity|].
    refine (proj2 (proj2 (proj2 (optimize_records_sum
                            (fmt := Demo.float32)
                            Demo.demo_heap float Demo.wide_pair_loss
                            Demo.keep (fun x => x) Demo.halve
                            10 (Single Demo.demo_net) None 1 1 false
                            (Demo.f32 1 0) _ _)) false _ eq_refl)).
    vm_compute. reflexivity.
Defined.

(** C7 fails as stated: [demo_net] and [shared_net] have the learnable
    core 0 in common, and the optimizer is handed that core twice. *)
Lemma shared_parameters_are_repeated :
  exists o,
    Demo.run Demo.square_loss 1 (Many [Demo.demo_net; Demo.shared_net]) None
             0 1 false = Some o /\
    handed_over (trace (final_state o)) = [[0; 2; 0]] /\
    ~ NoDup [0; 2; 0].
Proof.
  eexists. split; [vm_compute; reflexivity|]. split; [reflexivity|].
  intros Hnd. inversion Hnd as [|x l Hnotin _]. subst.
  apply Hnotin. simpl. auto.
Qed.

Lemma optimize_parameters_per_occurrence_witness :
  exists o,
    Demo.run Demo.square_loss 1 (Many [Demo.demo_net; Demo.shared_net]) None
             0 1 false = Some o /\
    In [0; 2; 0] (handed_over (trace (final_state o))) /\
    count_occ Nat.eq_dec [0; 2; 0] 0 = 2 /\
    count_occ Nat.eq_dec [0; 2; 0] 1 = 0.
Proof.
  eexists. split; [vm_compute; reflexivity|]. split; [now left|].
  assert (G := proj1 (optimize_parameters_per_occurrence
                   (fmt := Demo.float32)
                   Demo.demo_heap float Demo.square_loss Demo.keep
                   (fun x => x) Demo.halve 1
                   (Many [Demo.demo_net; Demo.shared_net]) None
                   0 1 false (Demo.f32 1 0) _ [0; 2; 0]
                   ltac:(vm_compute; reflexivity) ltac:(now left))).
  split; [apply (G 0)|apply (G 1)].
Defined.

(** C8 fails as stated: with a print frequency of 0 the verbose run stops
    with [ZeroDivisionError] in its first pass, before any optimizer step,
    where the silent run makes two steps and converges. *)
Lemma verbose_with_print_freq_zero_differs :
  (exists s,
     Demo.run Demo.square_loss 10 (Single Demo.demo_net) (Some Demo.tenth)
              5 0 true = Some (Raised ZeroDivisionError s) /\
     iter s = 0%Z /\ num_steps (trace s) = 0) /\
  (exists s,
     Demo.run Demo.square_loss 10 (Single Demo.demo_net) (Some Demo.tenth)
              5 0 false = Some (Returned true s) /\
     iter s = 2%Z /\ num_steps (trace s) = 2) /\
  option_map observe
    (Demo.run Demo.square_loss 10 (Single Demo.demo_net) (Some Demo.tenth)
              5 0 true)
  <> option_map observe
       (Demo.run Demo.square_loss 10 (Single Demo.demo_net)
                 (Some Demo.tenth) 5 0 false).
Proof.
  split; [|split].
  - eexists. split; [vm_compute; reflexivity|]. split; reflexivity.
  - eexists. split; [vm_compute; reflexivity|]. split; reflexivity.
  - vm_compute. discriminate.
Qed.

Lemma optimize_printing_observational_witness :
  (true = false \/ 2%Z <> 0%Z) /\ (false = false \/ 0%Z <> 0%Z) /\
  option_map observe
    (Demo.run Demo.square_loss 10 (Single Demo.demo_net) (Some Demo.tenth)
              5 2 true)
  = option_map observe
      (Demo.run Demo.square_loss 10 (Single Demo.demo_net)
                (Some Demo.tenth) 5 0 false).
Proof.
  assert (H1 : true = false \/ 2%Z <> 0%Z) by (right; lia).
  assert (H2 : false = false \/ 0%Z <> 0%Z) by (left; reflexivity).
  split; [exact H1|]. split; [exact H2|].
  apply (optimize_printing_observational (fmt := Demo.float32)
           Demo.demo_heap float Demo.square_loss Demo.keep (fun x => x)
           Demo.halve 10 (Single Demo.demo_net) (Some Demo.tenth) 5
           2 0 true false (Demo.f32 1 0) H1 H2).
Defined.

(** C10 fails as stated: under [tol = 0.1] a loss that is NaN is not
    [<= tol], so the quotient is evaluated, over a denominator that is NaN
    and not strictly above the tolerance. *)
Lemma nan_loss_is_not_above_tol :
  t_le (S754_zero false) Demo.tenth = true /\
  exists o,
    Demo.run (Demo.constant_loss nan) 10 (Single Demo.demo_net)
             (Some Demo.tenth) 3 1 false = Some o /\
    In (Divide nan nan) (trace (final_state o)) /\
    t_lt (to_dtype (fmt := Demo.float32) Demo.tenth) nan = false /\
    ~ Forall (division_above (fmt := Demo.float32) Demo.tenth)
             (trace (final_state o)).
Proof.
  split; [reflexivity|].
  eexists. split; [vm_compute; reflexivity|].
  assert (Hin : In (Divide nan nan)
                   (trace (final_state
                      (Returned false
                         {| store := Demo.f32 1 (-3);
                            losses := [nan; nan; nan; nan];
                            loss := [nan]; iter := 3%Z;
                            trace := [AdamInit [0; 2];
                                      ZeroGrad; LossEval (Scalar nan);
                                      Backward; Step;
                                      ZeroGrad; LossEval (Scalar nan);
                                      Backward; Step;
                                      ZeroGrad; LossEval (Scalar nan);
                                      Divide nan nan; Backward; Step;
                                      ZeroGrad; LossEval (Scalar nan);
                                      Divide nan nan];
                            out := [] |}))))
    by (cbn; tauto).
  split; [exact Hin|]. split; [reflexivity|].
  intros HF. apply (proj1 (Forall_forall _ _) HF) in Hin.
  discriminate Hin.
Qed.

Lemma optimize_division_safe_witness :
  exists o,
    Demo.run (Demo.constant_loss (Demo.f32 3 0)) 10 (Single Demo.demo_net)
             (Some (Demo.py 1 0)) 3 1 false = Some o /\
    In (Divide (S754_zero true) (Demo.f32 3 0)) (trace (final_state o)) /\
    Forall (guarded_division (fmt := Demo.float32) (Demo.py 1 0))
           (trace (final_state o)).
Proof.
  eexists. split; [vm_compute; reflexivity|].
  split; [cbn; tauto|].
  refine (proj1 (optimize_division_safe (fmt := Demo.float32)
            Demo.demo_heap float (Demo.constant_loss (Demo.f32 3 0))
            Demo.keep (fun x => x) Demo.halve 10 (Single Demo.demo_net)
            (Demo.py 1 0) 3 1 false (Demo.f32 1 0) _ _ _)).
  - reflexivity.
  - vm_compute. reflexivity.
Defined.

(** Below zero the tolerance gives no such guarantee: with [tol = -1] and a
    loss that is constantly 0 the quotient is evaluated over a zero
    denominator. *)
Lemma negative_tol_divides_by_zero :
  exists o,
    Demo.run (Demo.constant_loss (S754_zero false)) 10
             (Single Demo.demo_net) (Some (Demo.py (-1) 0)) 3 1 false
      = Some o /\
    In (Divide (S754_zero true) (S754_zero false))
       (trace (final_state o)).
Proof.
  eexists. split; [vm_compute; reflexivity|]. cbn. tauto.
Qed.

(** * Further properties *)

(** ** [dof] on any network *)

Section DofBounds.

Variable h : heap.

Lemma dof_loop_prefix (t : network) (m : nat) :
  forall (cs : list ref) (us : list (option ref)) (cs0 : list ref)
         (us0 : list (option ref)) (acc : nat),
    cores t = cs0 ++ cs -> Us t = us0 ++ us ->
    length us0 = length cs0 -> m <= length cs -> m <= length us ->
    dof_loop h t (seq (length cs0) m) acc
    = Ok (acc + (list_sum (map (core_contribution h) (firstn m cs))
                 + list_sum (map (factor_contribution h) (firstn m us)))).
Proof.
  induction m as [|m IH]; intros cs us cs0 us0 acc Hc Hu Hl0 Hmc Hmu.
  - simpl. f_equal. lia.
  - destruct cs as [|c cs]; [simpl in Hmc; lia|].
    destruct us as [|u us]; [simpl in Hmu; lia|].
    cbn [seq dof_loop firstn].
    rewrite Hc, index_middle. cbn [bind].
    rewrite Hu, <- Hl0, index_middle. cbn [bind].
    replace (S (length us0)) with (length (cs0 ++ [c]))
      by (rewrite length_app; simpl; lia).
    rewrite (IH cs us (cs0 ++ [c]) (us0 ++ [u])).
    + f_equal. unfold list_sum. cbn [map fold_right].
      generalize (fold_right Nat.add 0
                    (map (core_contribution h) (firstn m cs))).
      generalize (fold_right Nat.add 0
                    (map (factor_contribution h) (firstn m us))).
      intros a b. unfold core_contribution, factor_contribution.
      destruct u as [U|]; destruct (requires_grad (h c));
        try destruct (requires_grad (h U)); lia.
    + now rewrite <- app_assoc.
    + now rewrite <- app_assoc.
    + rewrite !length_app. simpl. lia.
    + simpl in Hmc. lia.
    + simpl in Hmu. lia.
Qed.

Lemma index_out_of_range (A : Type) (l : list A) (n : nat) :
  length l <= n -> index l n = Raise IndexError.
Proof.
  intros Hn. unfold index.
  now rewrite (proj2 (nth_error_None l n) Hn).
Qed.

Lemma index_in_range (A : Type) (l : list A) (n : nat) :
  n < length l -> exists x, index l n = Ok x.
Proof.
  intros Hn. unfold index.
  destruct (nth_error l n) eqn:E; [now eexists|].
  apply nth_error_None in E. lia.
Qed.

Lemma dof_loop_short (t : network) (m : nat) :
  forall k acc,
    length (cores t) < k + m \/ length (Us t) < k + m ->
    k <= length (cores t) -> k <= length (Us t) ->
    dof_loop h t (seq k m) acc = Raise IndexError.
Proof.
  induction m as [|m IH]; intros k acc Hshort Hkc Hku; [lia|].
  cbn [seq dof_loop].
  destruct (Nat.lt_ge_cases k (length (cores t))) as [Hc|Hc].
  2:{ now rewrite index_out_of_range. }
  destruct (index_in_range _ (cores t) k Hc) as [c ->]. cbn [bind].
  destruct (Nat.lt_ge_cases k (length (Us t))) as [Hu|Hu].
  2:{ now rewrite index_out_of_range. }
  destruct (index_in_range _ (Us t) k Hu) as [u ->]. cbn [bind].
  apply IH; lia.
Qed.

(** X1.  When the network has at least [ndim] cores and [ndim] factor
    slots, [dof] returns, and what it counts are the first [ndim] cores and
    the first [ndim] factor slots; later entries are not looked at. *)
Theorem dof_counts_first_ndim (t : network) :
  ndim t <= length (cores t) -> ndim t <= length (Us t) ->
  dof h t
  = Ok (list_sum (map (core_contribution h) (firstn (ndim t) (cores t)))
        + list_sum (map (factor_contribution h) (firstn (ndim t) (Us t)))).
Proof.
  intros Hc Hu. unfold dof.
  apply (dof_loop_prefix t (ndim t) (cores t) (Us t) [] [] 0); auto.
Qed.

(** X2.  When the network has fewer than [ndim] cores or fewer than [ndim]
    factor slots, [dof] raises [IndexError]. *)
Theorem dof_index_error (t : network) :
  length (cores t) < ndim t \/ length (Us t) < ndim t ->
  dof h t = Raise IndexError.
Proof.
  intros Hshort. unfold dof. apply dof_loop_short; simpl; lia.
Qed.

(** X3.  On a network with one core and one optional factor matrix per
    dimension, [dof] is the total element count of the parameters that
    [optimize] collects for that network alone. *)
Theorem dof_is_size_of_parameters (t : network) :
  wf_network t ->
  dof h t
  = Ok (list_sum (map (fun r => numel (h r)) (collect_parameters h [t]))).
Proof.
  intros [Hc Hu]. unfold dof. rewrite <- Hc.
  assert (Hlen : length (Us t) = length (cores t)) by lia.
  pose proof (dof_loop_sum h t (cores t) (Us t) [] [] 0
                           eq_refl eq_refl eq_refl Hlen) as G.
  cbn [length] in G. rewrite G. cbn [Nat.add].
  rewrite core_contributions, factor_contributions.
  rewrite collect_parameters_flat. cbn [flat_map].
  rewrite app_nil_r, map_app, list_sum_app. reflexivity.
Qed.

(** X4.  Collecting the parameters of a list of networks that is a
    concatenation gives the concatenation of the collected lists: each
    network contributes on its own, in the order of the networks. *)
Theorem collect_parameters_app (ts1 ts2 : list network) :
  collect_parameters h (ts1 ++ ts2)
  = collect_parameters h ts1 ++ collect_parameters h ts2.
Proof.
  rewrite !collect_parameters_flat. apply flat_map_app.
Qed.

Lemma collect_parameters_In (tensors : list network) (r : ref) :
  In r (collect_parameters h tensors) <->
  requires_grad (h r) = true /\
  exists t, In t tensors /\ (In r (cores t) \/ In (Some r) (Us t)).
Proof.
  rewrite collect_parameters_flat, in_flat_map. split.
  - intros (t & Ht & Hin). apply in_app_or in Hin.
    destruct Hin as [Hin|Hin]; apply filter_In in Hin;
      destruct Hin as [Hin Hl]; (split; [exact Hl|]); exists t;
      (split; [exact Ht|]); [now left|right; now apply In_present].
  - intros (Hl & t & Ht & Hin). exists t. split; [exact Ht|].
    apply in_or_app.
    destruct Hin as [Hin|Hin]; [left|right]; apply filter_In;
      (split; [|exact Hl]); [exact Hin|now apply In_present].
Qed.

Lemma collect_parameters_nil_iff (tensors : list network) :
  collect_parameters h tensors = [] <-> all_frozen h tensors.
Proof.
  split; [|apply collect_parameters_frozen].
  intros Hnil t Ht.
  assert (G : forall r, In r (cores t) \/ In (Some r) (Us t) ->
                        requires_grad (h r) = false).
  { intros r Hin. destruct (requires_grad (h r)) eqn:E; [|reflexivity].
    exfalso.
    assert (Hr : In r (collect_parameters h tensors))
      by (apply collect_parameters_In; split; [exact E|]; now exists t).
    rewrite Hnil in Hr. contradiction. }
  split; intros r Hin; apply G; auto.
Qed.

End DofBounds.

Lemma dof_counts_first_ndim_witness :
  ndim Demo.long_net <= length (cores Demo.long_net) /\
  ndim Demo.long_net <= length (Us Demo.long_net) /\
  dof Demo.demo_heap Demo.long_net = Ok 6.
Proof.
  split; [simpl; lia|]. split; [simpl; lia|].
  apply (dof_counts_first_ndim Demo.demo_heap Demo.long_net); simpl; lia.
Defined.

Lemma dof_index_error_witness :
  (length (cores Demo.short_net) < ndim Demo.short_net \/
   length (Us Demo.short_net) < ndim Demo.short_net) /\
  dof Demo.demo_heap Demo.short_net = Raise IndexError.
Proof.
  assert (H : length (cores Demo.short_net) < ndim Demo.short_net \/
              length (Us Demo.short_net) < ndim Demo.short_net)
    by (left; simpl; lia).
  split; [exact H|].
  apply (dof_index_error Demo.demo_heap Demo.short_net H).
Defined.

Lemma dof_is_size_of_parameters_witness :
  wf_network Demo.demo_net /\
  dof Demo.demo_heap Demo.demo_net = Ok (6 + 3).
Proof.
  split; [split; reflexivity|].
  apply (dof_is_size_of_parameters Demo.demo_heap Demo.demo_net).
  split; reflexivity.
Defined.

(** ** One pass, case by case *)

(** The division of the test at iteration [i] is the quotient of the
    specification at [i]: the latest loss under its negated difference to
    the one before; there is none without a tolerance or before
    iteration 2. *)
Lemma stop_test_numerator {fmt : Format} (i : Z) (tol : option float)
    (L : list float) (delta : float) (r : res bool) (divs : list event) :
  (0 <= i)%Z -> length L = S (Z.to_nat i) ->
  delta_loss_of L = Ok delta ->
  stop_test i tol L delta = (r, divs) ->
  Forall (division_of L) divs /\
  (tol = None \/ (i < 2)%Z -> divs = []).
Proof.
  intros Hi Hlen Hd. unfold stop_test.
  destruct (Z.leb_spec 2 i) as [H2|H2].
  2:{ intros [= _ <-]. split; [constructor|reflexivity]. }
  set (n := Z.to_nat i) in *.
  assert (Hn : 2 <= n) by (unfold n; lia).
  assert (E1 : neg_index L 1 = Ok (loss_at L n)).
  { rewrite (neg_index_nth float L 1 nan) by lia.
    unfold loss_at. do 2 f_equal. lia. }
  assert (E2 : neg_index L 2 = Ok (loss_at L (n - 1))).
  { rewrite (neg_index_nth float L 2 nan) by lia.
    unfold loss_at. do 2 f_equal. lia. }
  assert (ED : delta = t_sub (loss_at L n) (loss_at L (n - 1))).
  { revert Hd. unfold delta_loss_of.
    destruct (Nat.leb_spec 2 (length L)); [|lia].
    rewrite E1, E2. cbn [bind]. now intros [= <-]. }
  destruct tol as [t|].
  2:{ intros [= _ <-]. split; [constructor|reflexivity]. }
  assert (Hno : Some t = None \/ (i < 2)%Z -> False)
    by (intros [[=]|Hlt]; lia).
  rewrite E1.
  destruct (t_le (loss_at L n) (to_dtype t)).
  { intros [= _ <-]. split; [constructor|reflexivity]. }
  cbv zeta.
  destruct (t_le (t_div _ _) _); intros [= _ <-];
    (split; [|intros H; now destruct (Hno H)]);
    (constructor; [|constructor]); exists n; rewrite ED;
    (split; [lia|split; reflexivity]).
Qed.


(** The criterion at iteration [n] reads the trace up to [n] only. *)
Lemma criterion_at_prefix {fmt : Format} (tol : option float)
    (L M : list float) (n : nat) :
  n < length L ->
  criterion_at tol (L ++ M) n <-> criterion_at tol L n.
Proof.
  intros Hn. unfold criterion_at, loss_at.
  rewrite !(app_nth1 L M) by lia. reflexivity.
Qed.

Section PassFacts.

Context {fmt : Format}.

Variable Store : Type.
Variable loss_function : list network -> Store -> loss_value * Store.
Variable zero_grad : list ref -> Store -> Store.
Variable backward : Store -> Store.
Variable adam_step : list ref -> Store -> Store.
Variable tensors : list network.
Variable parameters : list ref.
Variable tol : option float.
Variable max_iter print_freq : Z.
Variable verbose : bool.

Local Notation "'body_'" :=
  (body loss_function zero_grad backward adam_step
        tensors parameters tol max_iter print_freq verbose).
Local Notation "'loop_'" :=
  (loop loss_function zero_grad backward adam_step
        tensors parameters tol max_iter print_freq verbose).
Local Notation "'evaluate_'" :=
  (evaluate loss_function zero_grad tensors parameters).

(** A pass from the head of the loop, written out: the loss is evaluated
    on zeroed gradients; an empty sequence of terms is a [TypeError];
    otherwise the sum is appended, the test is the criterion at this
    iteration, and the pass stops as converged, stops at the budget, fails
    in printing, or updates the parameters and goes on, in this order. *)
Lemma body_unfold (s : state Store) (v : loss_value) (store2 : Store) :
  at_head s ->
  evaluate_ (store s) = (v, store2) ->
  match reduce_add (as_sequence v) with
  | Raise e =>
      as_sequence v = [] /\
      body_ s = Fail TypeError
                  {| store := store2; losses := losses s; loss := [];
                     iter := iter s;
                     trace := trace s ++ [ZeroGrad; LossEval v];
                     out := out s |}
  | Ok total =>
      exists b divs,
        (b = true <->
         criterion_at tol (losses s ++ [total]) (Z.to_nat (iter s))) /\
        Forall (division_of (losses s ++ [total])) divs /\
        (tol = None \/ (iter s < 2)%Z -> divs = []) /\
        quotient_events tol divs /\
        let s2 := {| store := store2; losses := losses s ++ [total];
                     loss := as_sequence v; iter := iter s;
                     trace := trace s ++ ZeroGrad :: LossEval v :: divs;
                     out := out s |} in
        body_ s =
        if b then Stop true s2
        else if (iter s =? max_iter)%Z then Stop false s2
        else match progress verbose (iter s) print_freq
                            (as_sequence v) total with
             | Raise e => Fail e s2
             | Ok lines =>
                 Next {| store := adam_step parameters (backward store2);
                         losses := losses s ++ [total];
                         loss := as_sequence v;
                         iter := (iter s + 1)%Z;
                         trace := trace s ++ ZeroGrad :: LossEval v :: divs
                                          ++ [Backward; Step];
                         out := out s ++ lines |}
             end
  end.
Proof.
  intros [Hi Hl] Hev. unfold body. unfold evaluate in Hev. rewrite Hev.
  destruct (as_sequence v) as [|x rest] eqn:Ev.
  { cbn [reduce_add]. split; reflexivity. }
  cbn [reduce_add]. set (total := fold_left t_add rest x).
  assert (Hlen : length (losses s ++ [total]) = S (Z.to_nat (iter s)))
    by (rewrite length_app; simpl; lia).
  destruct (stop_test_spec (iter s) tol (losses s ++ [total]) Hi Hlen)
    as (delta & b & divs & Hd & Ht & Hb).
  destruct (stop_test_numerator _ _ _ _ _ _ Hi Hlen Hd Ht) as [Hfin Hnone].
  assert (Hq : quotient_events tol divs).
  { destruct (stop_test_divisions _ _ _ _ _ _ Ht)
      as [->|(t & l1 & -> & _ & Hle & ->)]; [now left|].
    right. now exists t, (t_neg delta), l1. }
  exists b, divs. repeat (split; [assumption|]).
  rewrite Hd, Ht. cbv zeta.
  replace ((trace s ++ [ZeroGrad; LossEval v]) ++ divs)
    with (trace s ++ ZeroGrad :: LossEval v :: divs)
    by (now rewrite <- app_assoc).
  destruct b; [reflexivity|].
  destruct (iter s =? max_iter)%Z; [reflexivity|].
  destruct (progress verbose (iter s) print_freq (x :: rest) total);
    [|reflexivity].
  do 2 f_equal. now rewrite <- !app_assoc.
Qed.

(** Printing the last line after a pass has left the loop. *)
Lemma finish_cases (c : bool) (s : state Store) :
  after_append s ->
  exists s2,
    finish verbose c s = Returned c s2 /\ silent s2 = silent s /\
    out s2 = out s ++
      (if verbose
       then [Final (iter s) (loss s)
                   (if (1 <? length (loss s))%nat
                    then Some (nth (length (losses s) - 1) (losses s) nan)
                    else None) c]
       else []).
Proof.
  intros [_ Hlen]. unfold finish.
  rewrite (neg_index_nth float (losses s) 1 nan) by lia.
  destruct verbose.
  - destruct (1 <? length (loss s))%nat; eexists;
      (split; [reflexivity|]); split; reflexivity.
  - exists s. split; [reflexivity|]. split; [reflexivity|].
    now rewrite app_nil_r.
Qed.

Lemma progress_raises (i : Z) (l : list float) (total : float) (e : exn) :
  progress verbose i print_freq l total = Raise e ->
  e = ZeroDivisionError /\ verbose = true /\ print_freq = 0%Z.
Proof.
  unfold progress. destruct verbose; [|discriminate].
  destruct (Z.eqb_spec print_freq 0) as [E|E].
  - intros [= <-]. auto.
  - destruct (_ =? 0)%Z; discriminate.
Qed.

(** The rule for the loop, from the head of the loop. *)
Lemma loop_invariant_at_head (I : state Store -> Prop)
    (P : outcome Store -> Prop) :
  (forall s s', at_head s -> I s -> body_ s = Next s' -> I s') ->
  (forall s c s', at_head s -> I s -> body_ s = Stop c s' ->
                  P (finish verbose c s')) ->
  (forall s e s', at_head s -> I s -> body_ s = Fail e s' ->
                  P (Raised e s')) ->
  forall fuel s o, at_head s -> I s -> loop_ fuel s = Some o -> P o.
Proof.
  intros HN HS HF fuel s o Hh Hs.
  apply (loop_invariant _ loss_function zero_grad backward adam_step
           tensors parameters tol max_iter print_freq verbose
           (fun s => at_head s /\ I s) P); [| | |now split].
  - intros s1 s1' [H1 H2] E. split.
    + eapply body_next_at_head; eauto.
    + eapply HN; eauto.
  - intros s1 c s1' [H1 H2]. now apply HS.
  - intros s1 e s1' [H1 H2]. now apply HF.
Qed.

(** Case analysis of one pass from the head of the loop: the equation [E]
    on the result of the pass is turned into the equations of its case. *)
Ltac pass_cases s Hh E :=
  let v := fresh "v" in
  let store2 := fresh "store2" in
  let Hev := fresh "Hev" in
  let B := fresh "B" in
  destruct (evaluate loss_function zero_grad tensors parameters (store s))
    as [v store2] eqn:Hev;
  pose proof (body_unfold s v store2 Hh Hev) as B;
  let total := fresh "total" in
  let Hred := fresh "Hred" in
  destruct (reduce_add (as_sequence v)) as [total|?] eqn:Hred;
  [ let b := fresh "b" in
    let divs := fresh "divs" in
    let Hb := fresh "Hb" in
    let Hfin := fresh "Hfin" in
    let Hnone := fresh "Hnone" in
    let Hq := fresh "Hq" in
    destruct B as (b & divs & Hb & Hfin & Hnone & Hq & B);
    cbv zeta in B; rewrite B in E; clear B;
    destruct b;
    [ | let Hmax := fresh "Hmax" in
        destruct (Z.eqb_spec (iter s) max_iter) as [Hmax|Hmax];
        [ | let Hp := fresh "Hp" in
            destruct (progress verbose (iter s) print_freq
                               (as_sequence v) total) eqn:Hp ] ]
  | let Hempty := fresh "Hempty" in
    destruct B as [Hempty B]; rewrite B in E; clear B ];
  try discriminate E;
  injection E; clear E;
  repeat match goal with
         | |- _ = ?x -> _ => let H := fresh in intros H; subst x
         end.

(** The calls of the events of one pass. *)
Lemma calls_app (a b : list event) : calls (a ++ b) = calls a ++ calls b.
Proof. apply filter_app. Qed.

Lemma pass_calls (v : loss_value) (divs : list event) :
  quotient_events tol divs ->
  calls (ZeroGrad :: LossEval v :: divs ++ [Backward; Step]) = full_pass v /\
  calls (ZeroGrad :: LossEval v :: divs) = [ZeroGrad; LossEval v].
Proof.
  intros [->|(t & num & den & _ & _ & ->)]; split; reflexivity.
Qed.

(** *** Runs from the start of [optimize] *)

Variable st : Store.

Local Notation "'start_'" :=
  {| store := st; losses := []; loss := []; iter := 0%Z;
     trace := [AdamInit parameters]; out := [] |}.
Local Notation "'loss_of_'" :=
  (loss_of loss_function zero_grad tensors parameters).
Local Notation "'store_after_'" :=
  (store_after loss_function zero_grad backward adam_step
               tensors parameters).

Lemma start_at_head : at_head start_.
Proof. split; [cbn; lia|reflexivity]. Qed.

Lemma loss_at_app_old (L : list float) (x : float) (i : nat) :
  i < length L -> loss_at (L ++ [x]) i = loss_at L i.
Proof. intros Hi. unfold loss_at. now rewrite app_nth1. Qed.

Lemma loss_at_app_new (L : list float) (x : float) :
  loss_at (L ++ [x]) (length L) = x.
Proof.
  unfold loss_at. now rewrite app_nth2, Nat.sub_diag by lia.
Qed.

(** The losses of a run are the losses at the successive stores, and the
    store it ends with is the one of its last evaluation. *)
Lemma run_stores (fuel : nat) (o : outcome Store) :
  loop_ fuel start_ = Some o ->
  (forall i, i < length (losses (final_state o)) ->
     loss_of_ (store_after_ i st) = Ok (loss_at (losses (final_state o)) i))
  /\
  store (final_state o)
  = snd (evaluate_ (store_after_ (Z.to_nat (iter (final_state o))) st)).
Proof.
  pose (I := fun s : state Store =>
    store s = store_after_ (Z.to_nat (iter s)) st /\
    forall i, i < length (losses s) ->
      loss_of_ (store_after_ i st) = Ok (loss_at (losses s) i)).
  pose (P := fun o : outcome Store =>
    (forall i, i < length (losses (final_state o)) ->
       loss_of_ (store_after_ i st)
       = Ok (loss_at (losses (final_state o)) i)) /\
    store (final_state o)
    = snd (evaluate_ (store_after_ (Z.to_nat (iter (final_state o))) st))).
  assert (Happ : forall s v store2 total,
            at_head s -> I s ->
            evaluate_ (store s) = (v, store2) ->
            reduce_add (as_sequence v) = Ok total ->
            forall i, i < length (losses s ++ [total]) ->
              loss_of_ (store_after_ i st)
              = Ok (loss_at (losses s ++ [total]) i)).
  { intros s v store2 total [Hpos Hlen] [Hst Hl] Hev Hred i Hi.
    rewrite length_app in Hi. simpl in Hi.
    destruct (Nat.eq_dec i (length (losses s))) as [->|Hne].
    - rewrite loss_at_app_new, Hlen, <- Hst.
      unfold loss_of. now rewrite Hev.
    - rewrite loss_at_app_old by lia. apply Hl. lia. }
  intros Hrun.
  refine (loop_invariant_at_head I P _ _ _ fuel start_ o
                                 start_at_head _ Hrun).
  - intros s s' Hh HI E. pass_cases s Hh E.
    split; cbn [store iter losses].
    + destruct Hh as [Hpos _], HI as [Hst _].
      replace (Z.to_nat (iter s + 1)) with (S (Z.to_nat (iter s))) by lia.
      unfold store_after in *. rewrite Nat.iter_succ, <- Hst.
      unfold update. now rewrite Hev.
    + now apply (Happ s v store2).
  - intros s c s' Hh HI E. unfold P.
    destruct (silent_fields _ _ _ (finish_final_state _ verbose c s'))
      as (-> & -> & _ & -> & _).
    pass_cases s Hh E; cbn [store iter losses];
      (split; [now apply (Happ s v store2)|]);
      destruct HI as [<- _]; now rewrite Hev.
  - intros s e s' Hh HI E. unfold P. cbn [final_state].
    pass_cases s Hh E; cbn [store iter losses].
    + split; [now apply (Happ s v store2)|].
      destruct HI as [<- _]; now rewrite Hev.
    + split; [apply HI|].
      destruct HI as [<- _]; now rewrite Hev.
  - split; [reflexivity|]. cbn. intros i Hi. lia.
Qed.

(** The calls of a run, in order: the optimizer is created, then every
    pass but the last zeroes the gradients, evaluates the loss, propagates
    backward and steps; the last pass stops after its evaluation. *)
Lemma run_calls (fuel : nat) (o : outcome Store) :
  loop_ fuel start_ = Some o ->
  exists vs v,
    loss_results (trace (final_state o)) = vs ++ [v] /\
    length vs = Z.to_nat (iter (final_state o)) /\
    calls (trace (final_state o))
    = AdamInit parameters :: flat_map full_pass vs ++ [ZeroGrad; LossEval v].
Proof.
  pose (I := fun s : state Store =>
    length (loss_results (trace s)) = Z.to_nat (iter s) /\
    calls (trace s)
    = AdamInit parameters :: flat_map full_pass (loss_results (trace s))).
  pose (P := fun o : outcome Store =>
    exists vs v,
      loss_results (trace (final_state o)) = vs ++ [v] /\
      length vs = Z.to_nat (iter (final_state o)) /\
      calls (trace (final_state o))
      = AdamInit parameters :: flat_map full_pass vs
                            ++ [ZeroGrad; LossEval v]).
  assert (Hleave : forall s v divs,
            I s -> quotient_events tol divs ->
            exists vs v',
              loss_results (trace s ++ ZeroGrad :: LossEval v :: divs)
              = vs ++ [v'] /\
              length vs = Z.to_nat (iter s) /\
              calls (trace s ++ ZeroGrad :: LossEval v :: divs)
              = AdamInit parameters :: flat_map full_pass vs
                                    ++ [ZeroGrad; LossEval v']).
  { intros s v divs [Hlen Hc] Hq.
    exists (loss_results (trace s)), v.
    rewrite loss_results_app, calls_app, Hc.
    destruct (pass_events_stop tol v divs Hq) as (-> & _).
    destruct (pass_calls v divs Hq) as (_ & ->). auto. }
  intros Hrun.
  refine (loop_invariant_at_head I P _ _ _ fuel start_ o
                                 start_at_head _ Hrun).
  - intros s s' Hh [Hlen Hc] E. pass_cases s Hh E.
    unfold I. cbn [trace iter].
    rewrite loss_results_app, calls_app, Hc.
    destruct (pass_events_next tol v divs Hq) as (-> & _).
    destruct (pass_calls v divs Hq) as (-> & _).
    rewrite length_app, flat_map_app. cbn [length flat_map].
    rewrite app_nil_r. split; [destruct Hh; lia|reflexivity].
  - intros s c s' Hh HI E. unfold P.
    destruct (silent_fields _ _ _ (finish_final_state _ verbose c s'))
      as (_ & _ & _ & -> & ->).
    pass_cases s Hh E; cbn [trace iter]; now apply Hleave.
  - intros s e s' Hh HI E. unfold P. cbn [final_state].
    pass_cases s Hh E; cbn [trace iter].
    + now apply Hleave.
    + apply (Hleave s v [] HI). now left.
  - split; reflexivity.
Qed.

Lemma filter_calls (p : event -> bool) (tr : list event) :
  (forall num den, p (Divide num den) = false) ->
  filter p tr = filter p (calls tr).
Proof.
  intros Hp. unfold calls.
  induction tr as [|e tr IH]; [reflexivity|].
  cbn [filter]. destruct e; cbn [is_divide negb filter];
    rewrite ?Hp, IH; reflexivity.
Qed.

Lemma handed_over_calls (tr : list event) :
  handed_over tr = handed_over (calls tr).
Proof.
  unfold handed_over, calls. induction tr as [|e tr IH]; [reflexivity|].
  destruct e; cbn [filter is_divide negb flat_map app];
    rewrite IH; reflexivity.
Qed.

Lemma filter_full_passes (p : event -> bool) (vs : list loss_value) :
  (forall x, p (LossEval x) = false) ->
  length (filter p (flat_map full_pass vs))
  = length vs * ((if p ZeroGrad then 1 else 0)
                 + (if p Backward then 1 else 0)
                 + (if p Step then 1 else 0)).
Proof.
  intros Heval. induction vs as [|x vs IH]; [reflexivity|].
  cbn [flat_map full_pass app filter length]. rewrite Heval.
  destruct (p ZeroGrad), (p Backward), (p Step); cbn [length];
    rewrite IH; lia.
Qed.

Lemma handed_over_full_passes (vs : list loss_value) :
  handed_over (flat_map full_pass vs) = [].
Proof.
  induction vs as [|x vs IH]; [reflexivity|]. exact IH.
Qed.

(** How often a run calls its collaborators. *)
Lemma run_counts (fuel : nat) (o : outcome Store) :
  loop_ fuel start_ = Some o ->
  let tr := trace (final_state o) in
  let n := Z.to_nat (iter (final_state o)) in
  num_zero_grads tr = S n /\ num_evals tr = S n /\
  num_backwards tr = n /\ num_steps tr = n /\
  handed_over tr = [parameters].
Proof.
  intros Hrun tr n. subst tr n.
  destruct (run_calls fuel o Hrun) as (vs & v & Hres & Hlen & Hcalls).
  unfold num_zero_grads, num_backwards, num_steps, num_evals.
  rewrite handed_over_calls, !(filter_calls _ (trace (final_state o)))
    by reflexivity.
  rewrite Hcalls, Hres, length_app, Hlen.
  cbn [filter is_zero_grad is_backward is_step].
  rewrite !filter_app, !length_app, !filter_full_passes by reflexivity.
  cbn [filter is_zero_grad is_backward is_step length].
  repeat split; try lia.
  change (AdamInit parameters
          :: flat_map full_pass vs ++ [ZeroGrad; LossEval v])
    with ([AdamInit parameters]
          ++ flat_map full_pass vs ++ [ZeroGrad; LossEval v]).
  rewrite !handed_over_app, handed_over_full_passes. reflexivity.
Qed.

(** *** The console *)

Lemma progress_iters_S (n : nat) :
  progress_iters print_freq (S n)
  = progress_iters print_freq n
    ++ (if (Z.of_nat n mod print_freq =? 0)%Z then [Z.of_nat n] else []).
Proof.
  unfold progress_iters. rewrite seq_S, map_app, filter_app.
  cbn [Nat.add map filter]. reflexivity.
Qed.

(** A silent run prints nothing. *)
Lemma run_silent (fuel : nat) (o : outcome Store) :
  verbose = false ->
  loop_ fuel start_ = Some o -> out (final_state o) = [].
Proof.
  intros Hv Hrun.
  pose (I := fun s : state Store => out s = []).
  pose (P := fun o : outcome Store => out (final_state o) = []).
  refine (loop_invariant_at_head I P _ _ _ fuel start_ o
                                 start_at_head eq_refl Hrun).
  - intros s s' Hh HI E. pass_cases s Hh E.
    unfold I in *. cbn [out]. rewrite HI.
    revert Hp. unfold progress. rewrite Hv. now intros [= <-].
  - intros s c s' Hh HI E. unfold P, finish. rewrite Hv.
    cbn [final_state]. pass_cases s Hh E; exact HI.
  - intros s e s' Hh HI E. unfold P. cbn [final_state].
    pass_cases s Hh E; exact HI.
Qed.

(** A verbose run that returns has printed one progress line for each
    iteration below the last that is a multiple of [print_freq], in order,
    and then the last line, with the last iteration, the terms of the last
    loss and the status. *)
Lemma run_verbose (fuel : nat) (c : bool) (s : state Store) :
  verbose = true ->
  loop_ fuel start_ = Some (Returned c s) ->
  exists progs total,
    out s = progs ++ [Final (iter s) (loss s) total c] /\
    forallb is_progress progs = true /\
    map line_iter progs = progress_iters print_freq (Z.to_nat (iter s)).
Proof.
  intros Hv Hrun.
  pose (I := fun s : state Store =>
    forallb is_progress (out s) = true /\
    map line_iter (out s) = progress_iters print_freq (Z.to_nat (iter s))).
  pose (P := fun o : outcome Store =>
    forall c s, o = Returned c s ->
      exists progs total,
        out s = progs ++ [Final (iter s) (loss s) total c] /\
        forallb is_progress progs = true /\
        map line_iter progs
        = progress_iters print_freq (Z.to_nat (iter s))).
  assert (I0 : I start_) by (split; reflexivity).
  refine (loop_invariant_at_head I P _ _ _ fuel start_ _
                                 start_at_head I0 Hrun c s eq_refl).
  - intros s1 s1' Hh [HI1 HI2] E. pass_cases s1 Hh E.
    unfold I. cbn [out iter]. destruct Hh as [Hpos _].
    replace (Z.to_nat (iter s1 + 1)) with (S (Z.to_nat (iter s1))) by lia.
    rewrite progress_iters_S, Z2Nat.id by exact Hpos.
    rewrite forallb_app, map_app, HI1, HI2.
    revert Hp. unfold progress. rewrite Hv.
    destruct (print_freq =? 0)%Z; [discriminate|].
    destruct (iter s1 mod print_freq =? 0)%Z; intros [= <-];
      split; reflexivity.
  - intros s1 c1 s1' Hh [HI1 HI2] E c2 s2 Hfin.
    assert (Ha : after_append s1' /\ out s1' = out s1 /\
                 iter s1' = iter s1).
    { pose proof (body_criterion _ loss_function zero_grad backward
                    adam_step tensors parameters tol max_iter print_freq
                    verbose s1 Hh) as B.
      rewrite E in B. destruct B as (Ha & Hi & _).
      split; [exact Ha|]. split; [|exact Hi].
      pass_cases s1 Hh E; reflexivity. }
    destruct Ha as (Ha & Hout & Hi).
    destruct (finish_cases c1 s1' Ha) as (s3 & Hfin' & Hsil & Hout').
    rewrite Hfin' in Hfin. injection Hfin as <- <-.
    apply silent_fields in Hsil. destruct Hsil as (_ & _ & -> & -> & _).
    rewrite Hv in Hout'. rewrite Hout', Hout, Hi.
    do 2 eexists. split; [reflexivity|]. split; assumption.
  - intros s1 e s1' _ _ _ c1 s2 [=].
Qed.

(** *** The divisions *)


(** *** Ways of leaving the loop *)

(** The loop raises only [TypeError], for a loss without terms, and
    [ZeroDivisionError], for a verbose run with a print frequency of 0
    that has not stopped in the same pass; no index is ever out of
    range. *)
Lemma run_exceptions (fuel : nat) (e : exn) (s : state Store) :
  loop_ fuel start_ = Some (Raised e s) ->
  (e = TypeError /\ loss s = [] /\
   length (losses s) = Z.to_nat (iter s)) \/
  (e = ZeroDivisionError /\ verbose = true /\ print_freq = 0%Z /\
   iter s <> max_iter /\ length (losses s) = S (Z.to_nat (iter s)) /\
   ~ criterion_at tol (losses s) (Z.to_nat (iter s))).
Proof.
  intros Hrun.
  pose (P := fun o : outcome Store =>
    forall e s, o = Raised e s ->
      (e = TypeError /\ loss s = [] /\
       length (losses s) = Z.to_nat (iter s)) \/
      (e = ZeroDivisionError /\ verbose = true /\ print_freq = 0%Z /\
       iter s <> max_iter /\ length (losses s) = S (Z.to_nat (iter s)) /\
       ~ criterion_at tol (losses s) (Z.to_nat (iter s)))).
  refine (loop_invariant_at_head (fun _ => True) P _ _ _ fuel start_ _
                                 start_at_head Logic.I Hrun e s eq_refl).
  - auto.
  - intros s1 c s1' Hh _ E e1 s2 Hfin.
    pose proof (body_criterion _ loss_function zero_grad backward
                  adam_step tensors parameters tol max_iter print_freq
                  verbose s1 Hh) as B.
    rewrite E in B. destruct B as (Ha & _).
    destruct (finish_cases c s1' Ha) as (s3 & Hfin' & _).
    congruence.
  - intros s1 e1 s1' Hh _ E e2 s2 [= <- <-].
    pass_cases s1 Hh E; cbn [loss losses iter].
    + right. destruct (progress_raises _ _ _ _ Hp) as (-> & Hv & Hf).
      destruct Hh as [Hpos Hlen].
      repeat split; auto.
      * rewrite length_app. simpl. lia.
      * intros Hc. apply Hb in Hc. discriminate.
    + left. destruct Hh as [Hpos Hlen]. auto.
Qed.

(** A run leaves the loop at an iteration from 0 on; when it returns
    without having converged, the iteration is [max_iter]; and it never
    goes beyond a budget that is not negative. *)
Lemma run_bounds (fuel : nat) (o : outcome Store) :
  loop_ fuel start_ = Some o ->
  (0 <= iter (final_state o))%Z /\
  (forall s, o = Returned false s -> iter s = max_iter) /\
  ((0 <= max_iter)%Z -> (iter (final_state o) <= max_iter)%Z).
Proof.
  intros Hrun.
  pose (I := fun s : state Store =>
    (0 <= max_iter)%Z -> (iter s <= max_iter)%Z).
  pose (P := fun o : outcome Store =>
    (0 <= iter (final_state o))%Z /\
    (forall s, o = Returned false s -> iter s = max_iter) /\
    ((0 <= max_iter)%Z -> (iter (final_state o) <= max_iter)%Z)).
  assert (I0 : I start_) by (intros H; exact H).
  refine (loop_invariant_at_head I P _ _ _ fuel start_ o
                                 start_at_head I0 Hrun).
  - intros s s' Hh HI E. pass_cases s Hh E.
    unfold I in *. cbn [iter]. intros H. specialize (HI H). lia.
  - intros s c s' [Hpos Hl] HI E. unfold P.
    destruct (silent_fields _ _ _ (finish_final_state _ verbose c s'))
      as (_ & _ & _ & -> & _).
    assert (Hs' : iter s' = iter s /\ (c = false -> iter s = max_iter)).
    { pass_cases s (conj Hpos Hl) E; cbn [iter]; split; auto;
        discriminate. }
    destruct Hs' as [Hi Hc]. rewrite Hi.
    repeat split; auto.
    intros s2 Hfin. apply finish_returned in Hfin.
    destruct Hfin as [Hf Hsil].
    apply silent_fields in Hsil. destruct Hsil as (_ & _ & _ & -> & _).
    rewrite Hi. apply Hc. now symmetry.
  - intros s e s' [Hpos Hl] HI E. unfold P. cbn [final_state].
    assert (Hs' : iter s' = iter s)
      by (pass_cases s (conj Hpos Hl) E; reflexivity).
    rewrite Hs'. repeat split; auto. intros s2 [=].
Qed.

(** With a budget that is not negative the loop ends, within
    [max_iter + 1] passes. *)
Lemma loop_ends (fuel : nat) :
  forall s : state Store,
    at_head s -> (iter s <= max_iter)%Z ->
    Z.to_nat (max_iter - iter s) < fuel ->
    exists o, loop_ fuel s = Some o.
Proof.
  induction fuel as [|fuel IH]; intros s Hh Hle Hfuel; [lia|].
  cbn [loop]. destruct (body_ s) as [s'|c s'|e s'] eqn:E;
    [|now eexists|now eexists].
  pose proof (body_next_at_head _ loss_function zero_grad backward
                adam_step tensors parameters tol max_iter print_freq
                verbose s s' Hh E) as Hh'.
  assert (Hi : iter s' = (iter s + 1)%Z /\ iter s <> max_iter)
    by (pass_cases s Hh E; split; [reflexivity|assumption]).
  destruct Hi as [Hi Hne]. apply IH; [exact Hh'| |]; lia.
Qed.

(** *** Where a run stops *)

Lemma seq_upto (k n : nat) :
  k <= n -> seq 0 (S n) = seq 0 (S k) ++ seq (S k) (n - k).
Proof.
  intros Hk. replace (S n) with (S k + (n - k)) by lia.
  now rewrite seq_app.
Qed.

(** Let the losses at the successive stores be [l 0 .. l n], let the
    criterion fail on them before iteration [n], and let [n] be within the
    budget and either meet the criterion or be the budget.  Then the run
    stops at iteration [n], with these losses as its trace, and with
    [converged] set exactly when the criterion holds at [n]. *)
Lemma run_first_stop (l : nat -> float) (n : nat) :
  (forall k, k <= n -> loss_of_ (store_after_ k st) = Ok (l k)) ->
  (forall k, k < n -> ~ criterion_at tol (map l (seq 0 (S n))) k) ->
  (Z.of_nat n <= max_iter)%Z ->
  criterion_at tol (map l (seq 0 (S n))) n \/ Z.of_nat n = max_iter ->
  (0 < n -> verbose = false \/ print_freq <> 0%Z) ->
  forall fuel, n < fuel ->
    exists c s,
      loop_ fuel start_ = Some (Returned c s) /\
      (c = true <-> criterion_at tol (map l (seq 0 (S n))) n) /\
      iter s = Z.of_nat n /\
      losses s = map l (seq 0 (S n)) /\
      store s = snd (evaluate_ (store_after_ n st)).
Proof.
  intros Hloss Hbefore Hbudget Hstop Hprint.
  enough (G : forall d k (s : state Store) fuel,
             k + d = n -> at_head s -> iter s = Z.of_nat k ->
             losses s = map l (seq 0 k) ->
             store s = store_after_ k st ->
             d < fuel ->
             exists c s',
               loop_ fuel s = Some (Returned c s') /\
               (c = true <-> criterion_at tol (map l (seq 0 (S n))) n) /\
               iter s' = Z.of_nat n /\
               losses s' = map l (seq 0 (S n)) /\
               store s' = snd (evaluate_ (store_after_ n st))).
  { intros fuel Hfuel.
    apply (G n 0 start_ fuel); auto using start_at_head. }
  induction d as [|d IH]; intros k s fuel Hk Hh Hi HL Hst Hfuel;
    (destruct fuel as [|fuel]; [lia|]); cbn [loop].
  - (* the pass of iteration n *)
    assert (k = n) by lia. subst k.
    destruct (evaluate_ (store s)) as [v store2] eqn:Hev.
    pose proof (body_unfold s v store2 Hh Hev) as B.
    assert (Hred : reduce_add (as_sequence v) = Ok (l n)).
    { rewrite <- (Hloss n (le_n n)), <- Hst. unfold loss_of.
      now rewrite Hev. }
    rewrite Hred in B.
    destruct B as (b & divs & Hb & _ & _ & _ & B). cbv zeta in B.
    assert (HL' : losses s ++ [l n] = map l (seq 0 (S n)))
      by (rewrite HL, seq_S, map_app; reflexivity).
    rewrite HL', Hi, Nat2Z.id in Hb.
    assert (Hleft : exists c s2,
               body_ s = Stop c s2 /\ (c = b) /\ after_append s2 /\
               iter s2 = iter s /\ losses s2 = losses s ++ [l n] /\
               store s2 = store2).
    { destruct Hh as [Hpos Hlen].
      assert (Hlen' : length (losses s ++ [l n]) = S (Z.to_nat (iter s)))
        by (rewrite length_app; simpl; lia).
      destruct b.
      - do 2 eexists. split; [exact B|].
        unfold after_append. cbn [iter losses store]. auto.
      - destruct Hstop as [Hc|Hm];
          [apply Hb in Hc; discriminate|].
        assert (Heq : (iter s =? max_iter)%Z = true)
          by (apply Z.eqb_eq; lia).
        rewrite Heq in B.
        do 2 eexists. split; [exact B|].
        unfold after_append. cbn [iter losses store]. auto. }
    destruct Hleft as (c & s2 & -> & -> & Ha & Hi2 & HL2 & Hs2).
    destruct (finish_cases b s2 Ha) as (s3 & -> & Hsil & _).
    apply silent_fields in Hsil.
    destruct Hsil as (E1 & E2 & _ & E4 & _).
    exists b, s3. split; [reflexivity|]. split; [exact Hb|].
    rewrite E1, E2, E4, Hi2, HL2, Hs2, HL', <- Hst, Hev. auto.
  - (* an earlier pass *)
    assert (Hkn : k < n) by lia.
    destruct (evaluate_ (store s)) as [v store2] eqn:Hev.
    pose proof (body_unfold s v store2 Hh Hev) as B.
    assert (Hred : reduce_add (as_sequence v) = Ok (l k)).
    { rewrite <- (Hloss k) by lia. rewrite <- Hst. unfold loss_of.
      now rewrite Hev. }
    rewrite Hred in B.
    destruct B as (b & divs & Hb & _ & _ & _ & B). cbv zeta in B.
    assert (HL' : losses s ++ [l k] = map l (seq 0 (S k)))
      by (rewrite HL, seq_S, map_app; reflexivity).
    assert (Hnot : b = false).
    { destruct b; [exfalso|reflexivity].
      pose proof (proj1 Hb eq_refl) as Hc.
      rewrite Hi, Nat2Z.id, HL' in Hc.
      apply (Hbefore k Hkn).
      rewrite (seq_upto k n) by lia. rewrite map_app.
      apply criterion_at_prefix; [rewrite length_map, length_seq; lia|].
      exact Hc. }
    subst b.
    destruct (Z.eqb_spec (iter s) max_iter) as [E|_]; [lia|].
    destruct (progress_prints verbose print_freq (iter s) (as_sequence v)
                (l k) (Hprint ltac:(lia))) as [lines Hlines].
    rewrite Hlines in B. rewrite B.
    apply (IH (S k)); cbn [iter losses store]; try lia.
    + eapply body_next_at_head; eauto.
    + exact HL'.
    + unfold store_after in *. rewrite Nat.iter_succ, <- Hst.
      unfold update. now rewrite Hev.
Qed.

(** A verbose run with a print frequency of 0 and a budget other than 0
    fails in its first pass, after the first loss is appended and before
    anything is propagated backward. *)
Lemma run_print_freq_zero (fuel : nat) (total : float) :
  verbose = true -> print_freq = 0%Z -> max_iter <> 0%Z ->
  loss_of_ st = Ok total -> 0 < fuel ->
  loop_ fuel start_
  = Some (Raised ZeroDivisionError
            {| store := snd (evaluate_ st); losses := [total];
               loss := as_sequence (fst (evaluate_ st)); iter := 0%Z;
               trace := [AdamInit parameters; ZeroGrad;
                         LossEval (fst (evaluate_ st))];
               out := [] |}).
Proof.
  intros Hv Hf Hmax Hred Hfuel.
  destruct fuel as [|fuel]; [lia|]. cbn [loop].
  destruct (evaluate_ st) as [v store2] eqn:Hev.
  pose proof (body_unfold start_ v store2 start_at_head Hev) as B.
  unfold loss_of in Hred. rewrite Hev in Hred. cbn [fst] in Hred.
  rewrite Hred in B.
  destruct B as (b & divs & Hb & _ & Hnone & _ & B). cbv zeta in B.
  cbn [iter losses trace out app] in *.
  rewrite (Hnone (or_intror eq_refl)) in B.
  assert (b = false).
  { destruct b; [|reflexivity].
    destruct (proj1 Hb eq_refl) as [H2 _]. cbn in H2. lia. }
  subst b. rewrite B.
  destruct (Z.eqb_spec 0 max_iter) as [E|_]; [congruence|].
  unfold progress. rewrite Hv, Hf. reflexivity.
Qed.

(** A first loss without terms is a [TypeError]: nothing is appended and
    nothing is propagated backward. *)
Lemma run_empty_loss (fuel : nat) :
  as_sequence (fst (evaluate_ st)) = [] -> 0 < fuel ->
  loop_ fuel start_
  = Some (Raised TypeError
            {| store := snd (evaluate_ st); losses := [];
               loss := []; iter := 0%Z;
               trace := [AdamInit parameters; ZeroGrad;
                         LossEval (fst (evaluate_ st))];
               out := [] |}).
Proof.
  intros Hempty Hfuel.
  destruct fuel as [|fuel]; [lia|]. cbn [loop].
  destruct (evaluate_ st) as [v store2] eqn:Hev.
  pose proof (body_unfold start_ v store2 start_at_head Hev) as B.
  cbn [fst] in Hempty. rewrite Hempty in B. cbn [reduce_add] in B.
  destruct B as [_ B]. rewrite B. reflexivity.
Qed.

End PassFacts.

(** ** Runs of [optimize] *)

Section OptimizeRuns.

Context {fmt : Format}.

Variable h : heap.
Variable Store : Type.
Variable loss_function : list network -> Store -> loss_value * Store.
Variable zero_grad : list ref -> Store -> Store.
Variable backward : Store -> Store.
Variable adam_step : list ref -> Store -> Store.
Variable tensors : tensors_arg.
Variable tol : option float.
Variable max_iter print_freq : Z.
Variable verbose : bool.
Variable st : Store.

Local Notation "'ps_'" := (collect_parameters h (as_list tensors)).
Local Notation "'optimize_' fuel" :=
  (optimize h loss_function zero_grad backward adam_step
            fuel tensors tol max_iter print_freq verbose st)
  (at level 10, fuel at level 9).
Local Notation "'evaluate_'" :=
  (evaluate loss_function zero_grad (as_list tensors) ps_).
Local Notation "'loss_of_'" :=
  (loss_of loss_function zero_grad (as_list tensors) ps_).
Local Notation "'store_after_'" :=
  (store_after loss_function zero_grad backward adam_step
               (as_list tensors) ps_).

(** With parameters to optimize, [optimize] is its loop. *)
Lemma optimize_is_loop (fuel : nat) :
  ps_ <> [] ->
  optimize_ fuel
  = loop loss_function zero_grad backward adam_step
         (as_list tensors) ps_ tol max_iter print_freq verbose fuel
         {| store := st; losses := []; loss := []; iter := 0%Z;
            trace := [AdamInit ps_]; out := [] |}.
Proof.
  intros Hps. unfold optimize.
  destruct (Nat.eqb_spec (length ps_) 0) as [E|_]; [|reflexivity].
  destruct ps_; [congruence|discriminate].
Qed.

(** A run that is not the [ValueError] comes from the loop. *)
Lemma optimize_from_loop (fuel : nat) (o : outcome Store) :
  optimize_ fuel = Some o ->
  (ps_ = [] /\
   o = Raised ValueError
         {| store := st; losses := []; loss := []; iter := 0%Z;
            trace := []; out := [] |}) \/
  (ps_ <> [] /\
   loop loss_function zero_grad backward adam_step
        (as_list tensors) ps_ tol max_iter print_freq verbose fuel
        {| store := st; losses := []; loss := []; iter := 0%Z;
           trace := [AdamInit ps_]; out := [] |} = Some o).
Proof.
  unfold optimize.
  destruct (Nat.eqb_spec (length ps_) 0) as [E|E].
  - intros [= <-]. left. split; [|reflexivity].
    destruct ps_; [reflexivity|discriminate].
  - intros Hrun. right. split; [|exact Hrun].
    intros Hnil. rewrite Hnil in E. now apply E.
Qed.

(** X5.  For every run of [optimize], the i-th entry of the loss trace is
    the combined loss evaluated, on zeroed gradients, at the store reached
    by [i] backward-and-step updates from the initial one; and when the
    run returns after iteration [n], the store it leaves is the one of the
    evaluation after [n] updates: no update follows the last loss. *)
Theorem optimize_losses_follow_updates (fuel : nat) (o : outcome Store) :
  optimize_ fuel = Some o ->
  (forall i, i < length (losses (final_state o)) ->
     loss_of_ (store_after_ i st) = Ok (loss_at (losses (final_state o)) i))
  /\
  (forall c s, o = Returned c s ->
     store s = snd (evaluate_ (store_after_ (Z.to_nat (iter s)) st))).
Proof.
  intros Hrun.
  destruct (optimize_from_loop fuel o Hrun) as [[_ ->]|[_ Hloop]].
  - split; [cbn; intros i Hi; lia|intros c s [=]].
  - destruct (run_stores _ _ _ _ _ _ _ _ _ _ _ _ _ _ Hloop) as [H1 H2].
    split; [exact H1|]. intros c s ->. exact H2.
Qed.

(** X6.  The calls of a run that returns after iteration [n], divisions
    apart, are: the optimizer is created on the collected parameters;
    then [n] times zero the gradients, evaluate the loss, propagate
    backward, step; then zero the gradients and evaluate the loss once
    more. *)
Theorem optimize_call_sequence (fuel : nat) (c : bool) (s : state Store) :
  optimize_ fuel = Some (Returned c s) ->
  exists vs v,
    loss_results (trace s) = vs ++ [v] /\
    length vs = Z.to_nat (iter s) /\
    calls (trace s)
    = AdamInit ps_ :: flat_map full_pass vs ++ [ZeroGrad; LossEval v].
Proof.
  intros Hrun.
  destruct (optimize_from_loop fuel _ Hrun) as [[_ [=]]|[_ Hloop]].
  apply (run_calls _ _ _ _ _ _ _ _ _ _ _ _ _ _ Hloop).
Qed.

(** X7.  A run that returns after iteration [n] has zeroed the gradients
    and evaluated the loss [n + 1] times each, and has propagated backward
    and stepped the optimizer [n] times each. *)
Theorem optimize_call_counts (fuel : nat) (c : bool) (s : state Store) :
  optimize_ fuel = Some (Returned c s) ->
  num_zero_grads (trace s) = S (Z.to_nat (iter s)) /\
  num_evals (trace s) = S (Z.to_nat (iter s)) /\
  num_backwards (trace s) = Z.to_nat (iter s) /\
  num_steps (trace s) = Z.to_nat (iter s).
Proof.
  intros Hrun.
  destruct (optimize_from_loop fuel _ Hrun) as [[_ [=]]|[_ Hloop]].
  destruct (run_counts _ _ _ _ _ _ _ _ _ _ _ _ _ _ Hloop)
    as (H1 & H2 & H3 & H4 & _).
  auto.
Qed.

(** X8.  With [verbose=False] nothing is printed, however the run ends. *)
Theorem optimize_silent_prints_nothing (fuel : nat) (o : outcome Store) :
  verbose = false ->
  optimize_ fuel = Some o -> out (final_state o) = [].
Proof.
  intros Hv Hrun.
  destruct (optimize_from_loop fuel o Hrun) as [[_ ->]|[_ Hloop]];
    [reflexivity|].
  apply (run_silent _ _ _ _ _ _ _ _ _ _ _ _ _ _ Hv Hloop).
Qed.

(** X9.  A verbose run that returns after iteration [n] has printed, in
    order, one progress line for each iteration below [n] that is a
    multiple of [print_freq], and then the last line, which carries [n],
    the terms of the last loss and whether the run converged. *)
Theorem optimize_verbose_lines (fuel : nat) (c : bool) (s : state Store) :
  verbose = true ->
  optimize_ fuel = Some (Returned c s) ->
  exists progs total,
    out s = progs ++ [Final (iter s) (loss s) total c] /\
    forallb is_progress progs = true /\
    map line_iter progs = progress_iters print_freq (Z.to_nat (iter s)).
Proof.
  intros Hv Hrun.
  destruct (optimize_from_loop fuel _ Hrun) as [[_ [=]]|[_ Hloop]].
  apply (run_verbose _ _ _ _ _ _ _ _ _ _ _ _ _ _ _ Hv Hloop).
Qed.


(** X11.  The exceptions [optimize] raises by itself: [ValueError] before
    anything is done, when no parameter was collected; [TypeError] when a
    loss has no terms, with nothing appended for it; [ZeroDivisionError]
    when verbose with a print frequency of 0, in a pass that neither
    converged nor reached the budget.  No index is ever out of range. *)
Theorem optimize_raises_only (fuel : nat) (e : exn) (s : state Store) :
  optimize_ fuel = Some (Raised e s) ->
  (e = ValueError /\ ps_ = [] /\ trace s = []) \/
  (e = TypeError /\ loss s = [] /\
   length (losses s) = Z.to_nat (iter s)) \/
  (e = ZeroDivisionError /\ verbose = true /\ print_freq = 0%Z /\
   iter s <> max_iter /\ length (losses s) = S (Z.to_nat (iter s)) /\
   ~ criterion_at tol (losses s) (Z.to_nat (iter s))).
Proof.
  intros Hrun.
  destruct (optimize_from_loop fuel _ Hrun) as [[Hps [= -> ->]]|[_ Hloop]].
  - left. auto.
  - right. apply (run_exceptions _ _ _ _ _ _ _ _ _ _ _ _ _ _ _ Hloop).
Qed.

(** X12.  [optimize] raises the [ValueError] exactly when no core and no
    present factor matrix of the supplied networks is learnable. *)
Theorem optimize_value_error_iff (fuel : nat) :
  (exists s, optimize_ fuel = Some (Raised ValueError s)) <->
  all_frozen h (as_list tensors).
Proof.
  rewrite <- collect_parameters_nil_iff. split.
  - intros [s Hrun].
    destruct (optimize_from_loop fuel _ Hrun) as [[Hps _]|[_ Hloop]];
      [exact Hps|].
    destruct (run_exceptions _ _ _ _ _ _ _ _ _ _ _ _ _ _ _ Hloop)
      as [[[=] _]|[[=] _]].
  - intros Hps. unfold optimize. rewrite Hps. cbn. now eexists.
Qed.

(** X13.  A run that returns does so at an iteration from 0 on; if it
    did not converge, that iteration is [max_iter]; and it is never
    beyond a [max_iter] that is not negative.  So with a negative
    [max_iter] a run returns only by converging. *)
Theorem optimize_returns_at_budget_or_converged
    (fuel : nat) (c : bool) (s : state Store) :
  optimize_ fuel = Some (Returned c s) ->
  (0 <= iter s)%Z /\
  (c = false -> iter s = max_iter) /\
  ((0 <= max_iter)%Z -> (iter s <= max_iter)%Z) /\
  ((max_iter < 0)%Z -> c = true).
Proof.
  intros Hrun.
  destruct (optimize_from_loop fuel _ Hrun) as [[_ [=]]|[_ Hloop]].
  destruct (run_bounds _ _ _ _ _ _ _ _ _ _ _ _ _ _ Hloop)
    as (H1 & H2 & H3).
  cbn [final_state] in *.
  assert (Hc : c = false -> iter s = max_iter)
    by (intros ->; now apply H2).
  repeat split; auto.
  intros Hneg. destruct c; [reflexivity|]. specialize (Hc eq_refl). lia.
Qed.

(** X14.  With [max_iter >= 0] the loop ends within [max_iter + 1]
    passes: every call of [optimize] returns or raises, at an iteration
    between 0 and [max_iter]. *)
Theorem optimize_ends_within_budget (fuel : nat) :
  (0 <= max_iter)%Z -> Z.to_nat max_iter < fuel ->
  exists o,
    optimize_ fuel = Some o /\
    (0 <= iter (final_state o) <= max_iter)%Z.
Proof.
  intros Hmax Hfuel. unfold optimize.
  destruct (_ =? 0); [eexists; split; [reflexivity|cbn; lia]|].
  destruct (loop_ends _ loss_function zero_grad backward adam_step
              (as_list tensors) ps_ tol max_iter print_freq verbose fuel
              {| store := st; losses := []; loss := []; iter := 0%Z;
                 trace := [AdamInit ps_]; out := [] |})
    as [o Hrun].
  - split; [cbn; lia|reflexivity].
  - exact Hmax.
  - cbn [iter]. now rewrite Z.sub_0_r.
  - exists o. split; [exact Hrun|].
    destruct (run_bounds _ _ _ _ _ _ _ _ _ _ _ _ _ _ Hrun)
      as (H1 & _ & H3).
    split; [exact H1|now apply H3].
Qed.

(** X15.  With a negative [max_iter] and no tolerance, a call with
    parameters to optimize, losses that have terms and no failing print
    never leaves the loop, however many passes it is given. *)
Theorem optimize_runs_on_without_budget (fuel : nat) :
  ps_ <> [] ->
  (forall st', as_sequence (fst (loss_function (as_list tensors) st')) <> []) ->
  (max_iter < 0)%Z ->
  verbose = false \/ print_freq <> 0%Z ->
  tol = None ->
  optimize_ fuel = None.
Proof.
  intros Hps Hne Hmax Hp ->.
  now apply optimize_negative_budget.
Qed.

(** X16.  Where a run stops.  Let [l 0 .. l n] be the combined losses at
    the stores reached by 0 .. [n] updates, with [n <= max_iter]; let the
    criterion fail on them at every iteration before [n], and let [n] meet
    the criterion or be [max_iter].  Then [optimize] returns after
    iteration [n] with exactly these losses as its trace, and with
    [converged] set if and only if the criterion holds at [n]: the
    criterion is tested before the budget. *)
Theorem optimize_stops_at_first_hit (l : nat -> float) (n : nat) (fuel : nat) :
  ps_ <> [] ->
  (forall k, k <= n -> loss_of_ (store_after_ k st) = Ok (l k)) ->
  (forall k, k < n -> ~ criterion_at tol (map l (seq 0 (S n))) k) ->
  (Z.of_nat n <= max_iter)%Z ->
  criterion_at tol (map l (seq 0 (S n))) n \/ Z.of_nat n = max_iter ->
  (0 < n -> verbose = false \/ print_freq <> 0%Z) ->
  n < fuel ->
  exists c s,
    optimize_ fuel = Some (Returned c s) /\
    (c = true <-> criterion_at tol (map l (seq 0 (S n))) n) /\
    iter s = Z.of_nat n /\
    losses s = map l (seq 0 (S n)) /\
    store s = snd (evaluate_ (store_after_ n st)).
Proof.
  intros Hps Hloss Hbefore Hbudget Hstop Hprint Hfuel.
  rewrite (optimize_is_loop fuel Hps).
  now apply run_first_stop.
Qed.

(** X17.  With [max_iter = 0] a call with parameters to optimize and a
    first loss that has terms evaluates that loss and returns, not
    converged: the store is the one of the evaluation, nothing was
    propagated backward and the optimizer made no step, whatever the
    tolerance and the printing arguments are. *)
Theorem optimize_zero_budget (fuel : nat) (total : float) :
  max_iter = 0%Z ->
  ps_ <> [] ->
  loss_of_ st = Ok total ->
  0 < fuel ->
  exists s,
    optimize_ fuel = Some (Returned false s) /\
    iter s = 0%Z /\ losses s = [total] /\
    store s = snd (evaluate_ st) /\
    num_backwards (trace s) = 0 /\ num_steps (trace s) = 0.
Proof.
  intros Hmax Hps Hloss Hfuel.
  rewrite (optimize_is_loop fuel Hps).
  destruct (run_first_stop _ loss_function zero_grad backward adam_step
              (as_list tensors) ps_ tol max_iter print_freq verbose st
              (fun _ => total) 0)
    with (fuel := fuel) as (c & s & Hrun & Hc & Hi & HL & Hs).
  - intros k Hk. assert (k = 0) by lia. subst k. exact Hloss.
  - intros k Hk. lia.
  - cbn. lia.
  - right. cbn. lia.
  - intros H. lia.
  - exact Hfuel.
  - assert (c = false).
    { destruct c; [|reflexivity].
      destruct (proj1 Hc eq_refl) as [H2 _]. lia. }
    subst c. exists s. split; [exact Hrun|].
    destruct (run_counts _ _ _ _ _ _ _ _ _ _ _ _ _ _ Hrun)
      as (_ & _ & H3 & H4 & _).
    cbn [final_state] in *. rewrite Hi in H3, H4.
    repeat split; auto.
Qed.

(** X18.  A verbose call with [print_freq = 0], [max_iter] other than 0,
    parameters to optimize and a first loss that has terms raises
    [ZeroDivisionError] in its first pass: the first loss is appended,
    nothing is printed, nothing is propagated backward and the optimizer
    makes no step. *)
Theorem optimize_print_freq_zero_raises (fuel : nat) (total : float) :
  verbose = true -> print_freq = 0%Z -> max_iter <> 0%Z ->
  ps_ <> [] ->
  loss_of_ st = Ok total ->
  0 < fuel ->
  optimize_ fuel
  = Some (Raised ZeroDivisionError
            {| store := snd (evaluate_ st); losses := [total];
               loss := as_sequence (fst (evaluate_ st)); iter := 0%Z;
               trace := [AdamInit ps_; ZeroGrad;
                         LossEval (fst (evaluate_ st))];
               out := [] |}).
Proof.
  intros Hv Hf Hmax Hps Hloss Hfuel.
  rewrite (optimize_is_loop fuel Hps).
  now apply run_print_freq_zero.
Qed.

(** X19.  When the first evaluation of the loss function returns an empty
    tuple or list, a call with parameters to optimize raises [TypeError]:
    nothing is appended to the loss trace, nothing is propagated backward
    and the optimizer makes no step. *)
Theorem optimize_empty_loss_raises (fuel : nat) :
  ps_ <> [] ->
  as_sequence (fst (evaluate_ st)) = [] ->
  0 < fuel ->
  optimize_ fuel
  = Some (Raised TypeError
            {| store := snd (evaluate_ st); losses := [];
               loss := []; iter := 0%Z;
               trace := [AdamInit ps_; ZeroGrad;
                         LossEval (fst (evaluate_ st))];
               out := [] |}).
Proof.
  intros Hps Hempty Hfuel.
  rewrite (optimize_is_loop fuel Hps).
  now apply run_empty_loss.
Qed.

End OptimizeRuns.

(** ** The instance, run further *)

Lemma optimize_losses_follow_updates_witness :
  exists s,
    Demo.run Demo.square_loss 10 (Single Demo.demo_net) (Some Demo.tenth)
             5 2 true = Some (Returned true s) /\
    store s
    = snd (evaluate Demo.square_loss Demo.keep [Demo.demo_net] [0; 2]
             (store_after Demo.square_loss Demo.keep (fun x => x) Demo.halve
                          [Demo.demo_net] [0; 2] 2 (Demo.f32 1 0))).
Proof.
  eexists. split; [vm_compute; reflexivity|].
  refine (proj2 (optimize_losses_follow_updates (fmt := Demo.float32)
                   Demo.demo_heap float Demo.square_loss Demo.keep (fun x => x)
                   Demo.halve (Single Demo.demo_net) (Some Demo.tenth)
                   5 2 true (Demo.f32 1 0) 10 _ _) true _ eq_refl).
  vm_compute. reflexivity.
Defined.

Lemma optimize_call_sequence_witness :
  exists s,
    Demo.run Demo.square_loss 10 (Single Demo.demo_net) (Some Demo.tenth)
             5 2 true = Some (Returned true s) /\
    exists vs v,
      loss_results (trace s) = vs ++ [v] /\
      length vs = Z.to_nat (iter s) /\
      calls (trace s)
      = AdamInit [0; 2] :: flat_map full_pass vs ++ [ZeroGrad; LossEval v].
Proof.
  eexists. split; [vm_compute; reflexivity|].
  refine (optimize_call_sequence (fmt := Demo.float32)
            Demo.demo_heap float Demo.square_loss Demo.keep (fun x => x)
            Demo.halve (Single Demo.demo_net) (Some Demo.tenth)
            5 2 true (Demo.f32 1 0) 10 true _ _).
  vm_compute. reflexivity.
Defined.

Lemma optimize_call_counts_witness :
  exists s,
    Demo.run Demo.square_loss 10 (Single Demo.demo_net) (Some Demo.tenth)
             5 2 true = Some (Returned true s) /\
    num_zero_grads (trace s) = 3 /\ num_evals (trace s) = 3 /\
    num_backwards (trace s) = 2 /\ num_steps (trace s) = 2.
Proof.
  eexists. split; [vm_compute; reflexivity|].
  refine (optimize_call_counts (fmt := Demo.float32)
            Demo.demo_heap float Demo.square_loss Demo.keep (fun x => x)
            Demo.halve (Single Demo.demo_net) (Some Demo.tenth)
            5 2 true (Demo.f32 1 0) 10 true _ _).
  vm_compute. reflexivity.
Defined.

Lemma optimize_silent_prints_nothing_witness :
  exists o,
    Demo.run Demo.square_loss 10 (Single Demo.demo_net) (Some Demo.tenth)
             5 2 false = Some o /\
    out (final_state o) = [].
Proof.
  eexists. split; [vm_compute; reflexivity|].
  refine (optimize_silent_prints_nothing (fmt := Demo.float32)
            Demo.demo_heap float Demo.square_loss Demo.keep (fun x => x)
            Demo.halve (Single Demo.demo_net) (Some Demo.tenth)
            5 2 false (Demo.f32 1 0) 10 _ eq_refl _).
  vm_compute. reflexivity.
Defined.

Lemma optimize_verbose_lines_witness :
  exists s,
    Demo.run Demo.pair_loss 10 (Single Demo.demo_net) None 5 2 true
      = Some (Returned false s) /\
    exists progs total,
      out s = progs ++ [Final (iter s) (loss s) total false] /\
      forallb is_progress progs = true /\
      map line_iter progs = [0; 2; 4]%Z.
Proof.
  eexists. split; [vm_compute; reflexivity|].
  refine (optimize_verbose_lines (fmt := Demo.float32)
            Demo.demo_heap float Demo.pair_loss Demo.keep (fun x => x)
            Demo.halve (Single Demo.demo_net) None
            5 2 true (Demo.f32 1 0) 10 false _ eq_refl _).
  vm_compute. reflexivity.
Defined.


Lemma optimize_raises_only_witness :
  exists s,
    Demo.run Demo.square_loss 10 (Single Demo.demo_net) (Some Demo.tenth)
             5 0 true = Some (Raised ZeroDivisionError s) /\
    ((ZeroDivisionError = ValueError /\
      collect_parameters Demo.demo_heap [Demo.demo_net] = [] /\
      trace s = []) \/
     (ZeroDivisionError = TypeError /\ loss s = [] /\
      length (losses s) = Z.to_nat (iter s)) \/
     (ZeroDivisionError = ZeroDivisionError /\ true = true /\ 0%Z = 0%Z /\
      iter s <> 5%Z /\ length (losses s) = S (Z.to_nat (iter s)) /\
      ~ criterion_at (fmt := Demo.float32) (Some Demo.tenth) (losses s) (Z.to_nat (iter s)))).
Proof.
  eexists. split; [vm_compute; reflexivity|].
  refine (optimize_raises_only (fmt := Demo.float32)
            Demo.demo_heap float Demo.square_loss Demo.keep (fun x => x)
            Demo.halve (Single Demo.demo_net) (Some Demo.tenth)
            5 0 true (Demo.f32 1 0) 10 ZeroDivisionError _ _).
  vm_compute. reflexivity.
Defined.

Lemma optimize_returns_at_budget_or_converged_witness :
  exists s,
    Demo.run Demo.pair_loss 10 (Single Demo.demo_net) None 5 2 true
      = Some (Returned false s) /\
    iter s = 5%Z.
Proof.
  eexists. split; [vm_compute; reflexivity|].
  refine (proj1 (proj2 (optimize_returns_at_budget_or_converged (fmt := Demo.float32)
            Demo.demo_heap float Demo.pair_loss Demo.keep (fun x => x)
            Demo.halve (Single Demo.demo_net) None
            5 2 true (Demo.f32 1 0) 10 false _ _)) eq_refl).
  vm_compute. reflexivity.
Defined.

Lemma optimize_ends_within_budget_witness :
  (0 <= 5)%Z /\ Z.to_nat 5 < 6 /\
  exists o,
    Demo.run Demo.square_loss 6 (Single Demo.demo_net) (Some Demo.tenth)
             5 2 true = Some o /\
    (0 <= iter (final_state o) <= 5)%Z.
Proof.
  split; [lia|]. split; [simpl; lia|].
  apply (optimize_ends_within_budget (fmt := Demo.float32)
           Demo.demo_heap float Demo.square_loss Demo.keep (fun x => x)
           Demo.halve (Single Demo.demo_net) (Some Demo.tenth)
           5 2 true (Demo.f32 1 0) 6); [lia|simpl; lia].
Defined.

Lemma optimize_runs_on_without_budget_witness :
  Demo.run Demo.square_loss 50 (Single Demo.demo_net) None (-1) 2 true
  = None.
Proof.
  apply (optimize_runs_on_without_budget (fmt := Demo.float32)
           Demo.demo_heap float Demo.square_loss Demo.keep (fun x => x)
           Demo.halve (Single Demo.demo_net) None (-1) 2 true (Demo.f32 1 0) 50).
  - vm_compute. discriminate.
  - intros st'. simpl. discriminate.
  - lia.
  - right. lia.
  - reflexivity.
Defined.

Lemma optimize_zero_budget_witness :
  exists s,
    Demo.run Demo.square_loss 1 (Single Demo.demo_net) (Some Demo.tenth)
             0 0 true = Some (Returned false s) /\
    iter s = 0%Z /\ losses s = [(Demo.f32 1 0)] /\ num_steps (trace s) = 0.
Proof.
  destruct (optimize_zero_budget (fmt := Demo.float32)
              Demo.demo_heap float Demo.square_loss Demo.keep (fun x => x)
              Demo.halve (Single Demo.demo_net) (Some Demo.tenth)
              0 0 true (Demo.f32 1 0) 1 (Demo.f32 1 0))
    as (s & Hrun & Hi & HL & _ & _ & Hs).
  - reflexivity.
  - vm_compute. discriminate.
  - reflexivity.
  - lia.
  - exists s. auto.
Defined.

Lemma optimize_print_freq_zero_raises_witness :
  exists s,
    Demo.run Demo.square_loss 10 (Single Demo.demo_net) (Some Demo.tenth)
             5 0 true = Some (Raised ZeroDivisionError s) /\
    losses s = [(Demo.f32 1 0)] /\ out s = [].
Proof.
  eexists. split.
  - apply (optimize_print_freq_zero_raises (fmt := Demo.float32)
             Demo.demo_heap float Demo.square_loss Demo.keep (fun x => x)
             Demo.halve (Single Demo.demo_net) (Some Demo.tenth)
             5 0 true (Demo.f32 1 0) 10 (Demo.f32 1 0)).
    + reflexivity.
    + reflexivity.
    + lia.
    + vm_compute. discriminate.
    + reflexivity.
    + lia.
  - split; reflexivity.
Defined.

Lemma optimize_empty_loss_raises_witness :
  exists s,
    Demo.run Demo.empty_loss 10 (Single Demo.demo_net) (Some Demo.tenth)
             5 2 true = Some (Raised TypeError s) /\
    losses s = [] /\ num_backwards (trace s) = 0.
Proof.
  eexists. split.
  - apply (optimize_empty_loss_raises (fmt := Demo.float32)
             Demo.demo_heap float Demo.empty_loss Demo.keep (fun x => x)
             Demo.halve (Single Demo.demo_net) (Some Demo.tenth)
             5 2 true (Demo.f32 1 0) 10).
    + vm_compute. discriminate.
    + reflexivity.
    + lia.
  - split; reflexivity.
Defined.

(** The losses 4, 2 and float32(0.1) under [tol = 0.1]: the run stops at
    iteration 2, converged, well before the budget. *)
Lemma optimize_stops_at_first_hit_witness :
  exists s,
    Demo.run Demo.stepped_loss 10 (Single Demo.demo_net) (Some Demo.tenth)
             5 2 true = Some (Returned true s) /\
    iter s = 2%Z /\
    losses s = map Demo.stepped_losses [0; 1; 2].
Proof.
  assert (Hc : criterion_at (fmt := Demo.float32) (Some Demo.tenth)
                 (map Demo.stepped_losses (seq 0 3)) 2).
  { split; [lia|]. exists Demo.tenth. split; [reflexivity|].
    split; [left|]; reflexivity. }
  destruct (optimize_stops_at_first_hit (fmt := Demo.float32)
              Demo.demo_heap float Demo.stepped_loss Demo.keep (fun x => x)
              Demo.halve (Single Demo.demo_net) (Some Demo.tenth)
              5 2 true (Demo.f32 1 0) Demo.stepped_losses 2 10)
    as (c & s & Hrun & Hconv & Hi & HL & _).
  - vm_compute. discriminate.
  - intros k Hk.
    destruct k as [|[|[|k]]]; [reflexivity|reflexivity|reflexivity|lia].
  - intros k Hk [H2 _]. lia.
  - lia.
  - left. exact Hc.
  - intros _. right. lia.
  - lia.
  - exists s. rewrite (proj2 Hconv Hc) in Hrun. auto.
Defined.
